(** * Melvin_09: tools/extract_wiki_text.py

    A shallow embedding of the Wikipedia text extractor: the regular
    expressions of [clean_text] run on a small backtracking matcher that
    follows Python's [re] (leftmost match, greedy and lazy repetition in
    backtracking order, optional groups, captures, MULTILINE anchors), and
    [extract_articles] is a loop over the start/end events that
    [ElementTree.iterparse] yields.

    Characters are Rocq's [ascii] (code points below 256); a Python [str] is
    a [string], or a [list ascii] where the matcher walks it. *)

From Stdlib Require Import String Ascii Bool Arith ZArith Lia List.
Import ListNotations.

Local Open Scope char_scope.
Local Open Scope list_scope.

(** ** Characters *)

Definition chars (s : string) : list ascii := list_ascii_of_string s.
Definition text_of (l : list ascii) : string := string_of_list_ascii l.

Definition newline : ascii := "010".

Definition ch (c : ascii) : ascii -> bool := fun x => Ascii.eqb x c.
Definition not_ch (c : ascii) : ascii -> bool := fun x => negb (Ascii.eqb x c).
Definition one_of (l : list ascii) : ascii -> bool :=
  fun x => existsb (Ascii.eqb x) l.
Definition none_of (l : list ascii) : ascii -> bool :=
  fun x => negb (existsb (Ascii.eqb x) l).

(** [str.isspace] and the class [\s] of a [str] pattern, below code point
    256: TAB LF VT FF CR, FS GS RS US, space, NEL and NBSP. *)
Definition isspace (c : ascii) : bool :=
  let n := nat_of_ascii c in
  (((9 <=? n) && (n <=? 13)) || ((28 <=? n) && (n <=? 32))
   || (n =? 133) || (n =? 160))%nat.

(** ** The matcher *)

Module Re.

(** The patterns of [clean_text] repeat single-character classes only, so
    repetition is over a class. [x+] is [Cat (Chr x) (Star g x)]. *)
Inductive regex : Type :=
| Eps                                   (* empty pattern *)
| Chr (p : ascii -> bool)               (* a literal, a class, or [.] *)
| Star (greedy : bool) (p : ascii -> bool)  (* [p*] and [p*?] *)
| Opt (r : regex)                       (* [r?], greedy *)
| Cat (r1 r2 : regex)
| Grp (n : nat) (r : regex)             (* capturing group number n *)
| Bol                                   (* [^] under re.MULTILINE *)
| Eol.                                  (* [$] under re.MULTILINE *)

Definition caps : Type := list (nat * list ascii).
Definition result : Type := (list ascii * caps)%type.

(** A continuation receives the character before the current position (for
    [^]), the rest of the input and the captures so far. *)
Definition cont : Type := option ascii -> list ascii -> caps -> option result.

Definition at_bol (prev : option ascii) : bool :=
  match prev with
  | None => true
  | Some c => Ascii.eqb c newline
  end.

Definition at_eol (s : list ascii) : bool :=
  match s with
  | [] => true
  | c :: _ => Ascii.eqb c newline
  end.

(** Greedy repetition: take as many characters as the class allows, give
    them back one at a time while the continuation fails. *)
Fixpoint rep_greedy (p : ascii -> bool)
    (k : option ascii -> list ascii -> option result)
    (prev : option ascii) (s : list ascii) : option result :=
  match s with
  | c :: s' =>
      if p c then
        match rep_greedy p k (Some c) s' with
        | Some r => Some r
        | None => k prev s
        end
      else k prev s
  | [] => k prev s
  end.

(** Lazy repetition: try the continuation first, take one more character
    only when it fails. *)
Fixpoint rep_lazy (p : ascii -> bool)
    (k : option ascii -> list ascii -> option result)
    (prev : option ascii) (s : list ascii) : option result :=
  match k prev s with
  | Some r => Some r
  | None =>
      match s with
      | c :: s' => if p c then rep_lazy p k (Some c) s' else None
      | [] => None
      end
  end.

Fixpoint rmatch (r : regex) (k : cont)
    (prev : option ascii) (s : list ascii) (cs : caps) : option result :=
  match r with
  | Eps => k prev s cs
  | Chr p =>
      match s with
      | c :: s' => if p c then k (Some c) s' cs else None
      | [] => None
      end
  | Star true p => rep_greedy p (fun pv s' => k pv s' cs) prev s
  | Star false p => rep_lazy p (fun pv s' => k pv s' cs) prev s
  | Opt r1 =>
      match rmatch r1 k prev s cs with
      | Some x => Some x
      | None => k prev s cs
      end
  | Cat r1 r2 => rmatch r1 (rmatch r2 k) prev s cs
  | Grp n r1 =>
      rmatch r1
        (fun pv s' cs' =>
           k pv s' ((n, firstn (length s - length s') s) :: cs'))
        prev s cs
  | Bol => if at_bol prev then k prev s cs else None
  | Eol => if at_eol s then k prev s cs else None
  end.

(** A match attempt at one position. With [must_advance] an empty match is
    refused, so the matcher backtracks to a non-empty one. *)
Definition accept (must_advance : bool) (s : list ascii) : cont :=
  fun _ s' cs =>
    if must_advance && Nat.eqb (length s') (length s) then None else Some (s', cs).

Definition match_at (r : regex) (must_advance : bool)
    (prev : option ascii) (s : list ascii) : option result :=
  rmatch r (accept must_advance s) prev s [].

(** Replacement templates: literal text and group references [\n]. A group
    that took no part in the match expands to the empty string. *)
Inductive ritem : Type :=
| RLit (l : list ascii)
| RGrp (n : nat).

Fixpoint group (n : nat) (cs : caps) : list ascii :=
  match cs with
  | [] => []
  | (m, v) :: cs' => if Nat.eqb m n then v else group n cs'
  end.

Fixpoint expand (t : list ritem) (cs : caps) : list ascii :=
  match t with
  | [] => []
  | RLit l :: t' => l ++ expand t' cs
  | RGrp n :: t' => group n cs ++ expand t' cs
  end.

(** [re.sub]: scan left to right, replace each leftmost match, copy the
    characters in between. [skip] counts the characters of the current match
    still to be dropped. After an empty match the same position is tried
    again for a non-empty one (Python 3.7 and later); none of the patterns
    of [clean_text] can match the empty string. *)
Fixpoint sub_from (r : regex) (t : list ritem) (skip : nat)
    (prev : option ascii) (s : list ascii) : list ascii :=
  match s with
  | [] =>
      match match_at r false prev [] with
      | Some (_, cs) => expand t cs
      | None => []
      end
  | c :: s' =>
      match skip with
      | S n => sub_from r t n (Some c) s'
      | O =>
          match match_at r false prev s with
          | Some (rest, cs) =>
              match length s - length rest with
              | S n => expand t cs ++ sub_from r t n (Some c) s'
              | O =>
                  expand t cs ++
                  match match_at r true prev s with
                  | Some (rest2, cs2) =>
                      expand t cs2 ++
                      sub_from r t (length s - length rest2 - 1) (Some c) s'
                  | None => c :: sub_from r t 0 (Some c) s'
                  end
              end
          | None => c :: sub_from r t 0 (Some c) s'
          end
      end
  end.

Definition sub (r : regex) (t : list ritem) (s : list ascii) : list ascii :=
  sub_from r t 0 None s.

(** Pattern building blocks. *)
Fixpoint lit (l : list ascii) : regex :=
  match l with
  | [] => Eps
  | c :: l' => Cat (Chr (ch c)) (lit l')
  end.

Definition Plus (greedy : bool) (p : ascii -> bool) : regex :=
  Cat (Chr p) (Star greedy p).

Fixpoint seq (l : list regex) : regex :=
  match l with
  | [] => Eps
  | r :: l' => Cat r (seq l')
  end.

Definition any : ascii -> bool := fun _ => true.           (* [.] with DOTALL *)
Definition dot : ascii -> bool := not_ch newline.            (* [.] without *)

End Re.

Import Re.

(** ** clean_text *)

Module Clean.

(** pattern "\{\{[^}]*\}\}", replaced by the empty string *)
Definition templates_re : regex :=
  seq [lit (chars "{{"); Star true (not_ch "}"); lit (chars "}}")].

(** pattern "\[\[(T\|)?(D)\]\]" where T is "[^|\]]*" and D is "[^\]]*",
    replaced by group 2 *)
Definition links_re : regex :=
  seq [lit (chars "[[");
       Opt (Grp 1 (Cat (Star true (none_of ["|"; "]"])) (Chr (ch "|"))));
       Grp 2 (Star true (not_ch "]"));
       lit (chars "]]")].

(** pattern "<ref[^>]*>.*?</ref>" with re.DOTALL *)
Definition ref_pair_re : regex :=
  seq [lit (chars "<ref"); Star true (not_ch ">"); Chr (ch ">");
       Star false any; lit (chars "</ref>")].

(** pattern "<ref[^>]*\/>" *)
Definition ref_self_re : regex :=
  seq [lit (chars "<ref"); Star true (not_ch ">"); lit (chars "/>")].

(** pattern "<[^>]+>" *)
Definition tag_re : regex :=
  seq [Chr (ch "<"); Plus true (not_ch ">"); Chr (ch ">")].

(** patterns "'''" (bold) and "''" (italic) *)
Definition bold_re : regex := lit (chars "'''").
Definition italic_re : regex := lit (chars "''").

(** pattern "^[*#:;]+" with re.MULTILINE *)
Definition list_re : regex :=
  seq [Bol; Plus true (one_of ["*"; "#"; ":"; ";"])].

(** pattern "^=+\s*(.+?)\s*=+$" with re.MULTILINE, replaced by group 1 *)
Definition header_re : regex :=
  seq [Bol; Plus true (ch "="); Star true isspace;
       Grp 1 (Plus false dot);
       Star true isspace; Plus true (ch "="); Eol].

(** pattern "https?://\S+" *)
Definition url_re : regex :=
  seq [lit (chars "http"); Opt (Chr (ch "s")); lit (chars "://");
       Plus true (fun c => negb (isspace c))].

(** pattern "\n\n+", replaced by two newlines *)
Definition blank_lines_re : regex :=
  seq [Chr (ch newline); Plus true (ch newline)].

(** pattern " +", replaced by one space *)
Definition spaces_re : regex := Plus true (ch " ").

Definition strip_templates : list ascii -> list ascii := sub templates_re [].
Definition unwrap_links : list ascii -> list ascii := sub links_re [RGrp 2].
Definition strip_ref_pairs : list ascii -> list ascii := sub ref_pair_re [].
Definition strip_ref_self : list ascii -> list ascii := sub ref_self_re [].
Definition strip_tags : list ascii -> list ascii := sub tag_re [].
Definition strip_bold : list ascii -> list ascii := sub bold_re [].
Definition strip_italic : list ascii -> list ascii := sub italic_re [].
Definition strip_list_markers : list ascii -> list ascii := sub list_re [].
Definition unwrap_headers : list ascii -> list ascii := sub header_re [RGrp 1].
Definition strip_urls : list ascii -> list ascii := sub url_re [].
Definition squeeze_blank_lines : list ascii -> list ascii :=
  sub blank_lines_re [RLit [newline; newline]].
Definition squeeze_spaces : list ascii -> list ascii :=
  sub spaces_re [RLit [" "]].

(** [str.strip()] *)
Fixpoint lstrip (s : list ascii) : list ascii :=
  match s with
  | c :: s' => if isspace c then lstrip s' else s
  | [] => []
  end.

Definition rstrip (s : list ascii) : list ascii := rev (lstrip (rev s)).
Definition strip (s : list ascii) : list ascii := rstrip (lstrip s).

(** The body of [clean_text] after the guard, one line per [re.sub]. *)
Definition clean_chars (text : list ascii) : list ascii :=
  let text := strip_templates text in
  let text := unwrap_links text in
  let text := strip_ref_pairs text in
  let text := strip_ref_self text in
  let text := strip_tags text in
  let text := strip_bold text in
  let text := strip_italic text in
  let text := strip_list_markers text in
  let text := unwrap_headers text in
  let text := strip_urls text in
  let text := squeeze_blank_lines text in
  let text := squeeze_spaces text in
  strip text.

Definition clean_text (text : string) : string :=
  match text with
  | EmptyString => EmptyString          (* [if not text: return ""] *)
  | _ => text_of (clean_chars (chars text))
  end.

(** The ordering the spec warns against: generic tag stripping moved in
    front of the two reference rules, everything else as in [clean_text]. *)
Definition clean_chars_tags_first (text : list ascii) : list ascii :=
  let text := strip_templates text in
  let text := unwrap_links text in
  let text := strip_tags text in
  let text := strip_ref_pairs text in
  let text := strip_ref_self text in
  let text := strip_bold text in
  let text := strip_italic text in
  let text := strip_list_markers text in
  let text := unwrap_headers text in
  let text := strip_urls text in
  let text := squeeze_blank_lines text in
  let text := squeeze_spaces text in
  strip text.

Definition clean_text_tags_first (text : string) : string :=
  match text with
  | EmptyString => EmptyString
  | _ => text_of (clean_chars_tags_first (chars text))
  end.

End Clean.

Import Clean.


(** ** extract_articles *)

Module Extract.

Local Open Scope string_scope.
Local Open Scope Z_scope.

(** What [ET.iterparse(f, events=('start', 'end'))] yields: the kind of the
    event and the element, of which the loop reads [elem.tag] and
    [elem.text] (absent when the element has no text). *)
Inductive event_kind : Type := Start | End.

Record element : Type := { tag : string; text : option string }.

Definition event : Type := (event_kind * element)%type.

(** [elem.tag.split('}')[-1]]: what follows the last closing brace. *)
Fixpoint after_last (sep : ascii) (cur s : string) : string :=
  match s with
  | EmptyString => cur
  | String a s' =>
      if Ascii.eqb a sep then after_last sep "" s'
      else after_last sep (cur ++ String a "") s'
  end.

Definition local_name (t : string) : string := after_last "}" "" t.

(** The console lines that carry the counters: the progress line and the
    final summary are both printed from [article_count] and [text_size]
    (the size is shown in MB with one decimal). *)
Inductive report : Type :=
| Progress (articles size : Z)
| Summary (articles size : Z).

(** The local variables of [extract_articles]. [out] holds the records
    written so far, oldest first: the title line and the cleaned block. *)
Record state : Type := {
  out : list (string * string);
  console : list report;
  article_count : Z;
  text_size : Z;
  current_title : option string;
  current_text : option string;
  in_page : bool
}.

Definition init : state :=
  {| out := []; console := []; article_count := 0; text_size := 0;
     current_title := None; current_text := None; in_page := false |}.

(** The bytes of the output file. *)
Definition render (rec : string * string) : string :=
  fst rec ++ String newline "" ++ snd rec ++ String newline (String newline "").

Definition file_contents (st : state) : string :=
  fold_right (fun rec acc => render rec ++ acc) "" (out st).

(** Truth value of a string: the empty string counts as false. *)
Definition nonempty (s : string) : bool :=
  match s with
  | EmptyString => false
  | String _ _ => true
  end.

Definition special_prefixes : list string :=
  ["Wikipedia:"; "Template:"; "Category:"; "File:"; "Help:"].

(** [title.startswith((...))] *)
Definition startswith_any (title : string) (ps : list string) : bool :=
  existsb (fun p => String.prefix p title) ps.

(** [max_articles and article_count >= max_articles] *)
Definition cap_reached (max_articles : option Z) (count : Z) : bool :=
  match max_articles with
  | None => false
  | Some m => negb (m =? 0) && (count >=? m)
  end.

(** The branch for the end of a page. [if current_title and current_text]
    holds when neither is [None] or empty. The second component tells
    whether the loop breaks; on [break] the rest of the iteration, and with
    it [in_page = False], is skipped. *)
Definition end_page (max_articles : option Z) (st : state) : state * bool :=
  let leave (s : state) : state * bool :=
    ({| out := out s; console := console s;
        article_count := article_count s; text_size := text_size s;
        current_title := current_title s; current_text := current_text s;
        in_page := false |}, false) in
  match current_title st, current_text st with
  | Some title, Some body =>
      if nonempty title && nonempty body then
        if negb (startswith_any title special_prefixes) then
          let clean := clean_text body in
          if Z.of_nat (String.length clean) >? 100 then
            let count := article_count st + 1 in
            let size := text_size st + Z.of_nat (String.length clean) in
            let st' :=
              {| out := out st ++ [(title, clean)];
                 console :=
                   if count mod 100 =? 0
                   then console st ++ [Progress count size]
                   else console st;
                 article_count := count; text_size := size;
                 current_title := current_title st;
                 current_text := current_text st;
                 in_page := in_page st |} in
            if cap_reached max_articles count then (st', true)
            else leave st'
          else leave st
        else leave st
      else leave st
  | _, _ => leave st
  end.

(** One iteration of the [for event, elem in context] loop. *)
Definition step (max_articles : option Z) (ev : event) (st : state)
    : state * bool :=
  let '(kind, elem) := ev in
  let tag := local_name (tag elem) in
  match kind with
  | Start =>
      if String.eqb tag "page" then
        ({| out := out st; console := console st;
            article_count := article_count st; text_size := text_size st;
            current_title := None; current_text := None;
            in_page := true |}, false)
      else (st, false)
  | End =>
      if String.eqb tag "title" && in_page st then
        ({| out := out st; console := console st;
            article_count := article_count st; text_size := text_size st;
            current_title := text elem; current_text := current_text st;
            in_page := in_page st |}, false)
      else if String.eqb tag "text" && in_page st then
        ({| out := out st; console := console st;
            article_count := article_count st; text_size := text_size st;
            current_title := current_title st; current_text := text elem;
            in_page := in_page st |}, false)
      else if String.eqb tag "page" then end_page max_articles st
      else (st, false)
  end.

Fixpoint loop (max_articles : option Z) (events : list event) (st : state)
    : state :=
  match events with
  | [] => st
  | ev :: rest =>
      let (st', stop) := step max_articles ev st in
      if stop then st' else loop max_articles rest st'
  end.

(** After the loop: the files are closed and the summary is printed. *)
Definition finish (st : state) : state :=
  {| out := out st;
     console := console st ++ [Summary (article_count st) (text_size st)];
     article_count := article_count st; text_size := text_size st;
     current_title := current_title st; current_text := current_text st;
     in_page := in_page st |}.

(** [extract_articles] on the event stream of the input file. The first
    event is taken by [next(context)] for the root element and is not seen
    by the loop; an empty stream makes that call raise. *)
Definition extract_articles (events : list event) (max_articles : option Z)
    : option state :=
  match events with
  | [] => None
  | _ :: rest => Some (finish (loop max_articles rest init))
  end.

End Extract.

Import Extract.

(** ** tests/analyze_learning.py *)

Module Analyze.

Local Open Scope string_scope.
Local Open Scope Z_scope.

(** A row of the results file as [parse_results] builds it. The column
    [error_rate] is a float and is left out; the parts below do not read
    it. *)
Record result : Type := {
  iterations : Z;
  output : string;
  correct : bool;
  edges : Z;
  nodes : Z;
  hierarchies : Z
}.

(** The three training phases of [analyze_learning]: list comprehensions
    over the rows, in the order of the file. *)
Definition early (results : list result) : list result :=
  filter (fun r => iterations r <=? 5) results.

Definition mid (results : list result) : list result :=
  filter (fun r => (6 <=? iterations r) && (iterations r <=? 20)) results.

Definition late (results : list result) : list result :=
  filter (fun r => iterations r >? 20) results.

(** [output[:20] if len(output) <= 20 else output[:17] + "..."] *)
Definition output_display (r : result) : string :=
  if (String.length (output r) <=? 20)%nat
  then String.substring 0 20 (output r)
  else String.substring 0 17 (output r) ++ "...".

End Analyze.

(** * Definitions used in the statements *)

Local Open Scope string_scope.

(** ** Text *)

(** Patterns without [^] do not look at the character before the match. *)
Fixpoint uses_bol (r : regex) : bool :=
  match r with
  | Bol => true
  | Opt r1 | Grp _ r1 => uses_bol r1
  | Cat r1 r2 => uses_bol r1 || uses_bol r2
  | _ => false
  end.

(** The position after every character of [l], for [^]. *)
Definition prev_after (l : list ascii) (prev : option ascii) : option ascii :=
  fold_left (fun _ c => Some c) l prev.

(** From the character after an opening template marker: the text up to the
    first closing brace, which has to be followed by a second one. *)
Fixpoint upto_close (s : list ascii) : option (list ascii) :=
  match s with
  | [] => None
  | c :: s' =>
      if ch "}" c then
        match s' with
        | c' :: rest => if ch "}" c' then Some rest else None
        | [] => None
        end
      else upto_close s'
  end.

Definition template_span (body : list ascii) : list ascii :=
  (chars "{{" ++ body ++ chars "}}")%list.

Definition piped_link (target display : list ascii) : list ascii :=
  (chars "[[" ++ target ++ chars "|" ++ display ++ chars "]]")%list.

Definition plain_link (target : list ascii) : list ascii :=
  (chars "[[" ++ target ++ chars "]]")%list.

(** [l1] is [l2] with some characters dropped. *)
Inductive subseq {A : Type} : list A -> list A -> Prop :=
| subseq_nil : subseq [] []
| subseq_drop x l1 l2 : subseq l1 l2 -> subseq l1 (x :: l2)
| subseq_keep x l1 l2 : subseq l1 l2 -> subseq (x :: l1) (x :: l2).

(** [s.startswith(p)] and [p in s], on lists of characters. *)
Fixpoint starts_with (p s : list ascii) : bool :=
  match p, s with
  | [], _ => true
  | a :: p', b :: s' => ch a b && starts_with p' s'
  | _ :: _, [] => false
  end.

Fixpoint occurs (p s : list ascii) : bool :=
  starts_with p s
  || match s with
     | [] => false
     | _ :: s' => occurs p s'
     end.

Definition end_to_end_input : string :=
  "'''Bold''' text with a [[Link|shown]] and {{cite|x}} reference<ref>note</ref> end.".

Fixpoint replicate (n : nat) (c : ascii) : string :=
  match n with
  | O => ""
  | S n' => String c (replicate n' c)
  end.

(** ** Events and states *)

Local Open Scope Z_scope.

Definition clean_len (body : string) : Z :=
  Z.of_nat (String.length (clean_text body)).

(** A candidate is written when both fields are present and non-empty, the
    title carries none of the special prefixes and the cleaned body is
    longer than 100 characters. *)
Definition accepted (st : state) : bool :=
  match current_title st, current_text st with
  | Some title, Some body =>
      nonempty title && nonempty body
      && negb (startswith_any title special_prefixes)
      && (clean_len body >? 100)
  | _, _ => false
  end.

Definition is_page (ev : event) : bool :=
  String.eqb (local_name (tag (snd ev))) "page".

Definition is_start_page (ev : event) : bool :=
  match fst ev with
  | Start => is_page ev
  | End => false
  end.

Definition is_end_page (ev : event) : bool :=
  match fst ev with
  | End => is_page ev
  | Start => false
  end.

Definition is_end_title (ev : event) : bool :=
  match fst ev with
  | End => String.eqb (local_name (tag (snd ev))) "title"
  | Start => false
  end.

(** Whether an iteration writes a record, and which one. *)
Definition writes (ev : event) (st : state) : bool :=
  is_end_page ev && accepted st.

Definition record_of (st : state) : string * string :=
  match current_title st, current_text st with
  | Some title, Some body => (title, clean_text body)
  | _, _ => ("", "")
  end.

Definition sizes_sum (records : list (string * string)) : Z :=
  fold_right (fun rec acc => Z.of_nat (String.length (snd rec)) + acc) 0 records.

Definition counters_ok (st : state) : Prop :=
  article_count st = Z.of_nat (length (out st))
  /\ text_size st = sizes_sum (out st).

(** ** Sample inputs: events as [iterparse] yields them for a dump *)

Definition start_ev (t : string) : event := (Start, {| tag := t; text := None |}).
Definition end_ev (t : string) (x : option string) : event :=
  (End, {| tag := t; text := x |}).

Definition page_events (ns title body : string) : list event :=
  [start_ev (ns ++ "page");
   start_ev (ns ++ "title"); end_ev (ns ++ "title") (Some title);
   start_ev (ns ++ "text"); end_ev (ns ++ "text") (Some body);
   end_ev (ns ++ "page") None].

(** The loop variables just before a page closes. *)
Definition at_page_end (title body : option string) : state :=
  {| out := []; console := []; article_count := 0; text_size := 0;
     current_title := title; current_text := body; in_page := true |}.

Definition two_titles : list event :=
  [start_ev "mediawiki"; start_ev "page";
   start_ev "title"; end_ev "title" (Some "First");
   start_ev "title"; end_ev "title" (Some "Second");
   start_ev "text"; end_ev "text" (Some (replicate 150 "a"));
   end_ev "page" None; end_ev "mediawiki" None].

Definition nested_page : list event :=
  [start_ev "mediawiki"; start_ev "page";
   start_ev "title"; end_ev "title" (Some "First");
   start_ev "page"; end_ev "page" None;
   start_ev "title"; end_ev "title" (Some "Second");
   start_ev "text"; end_ev "text" (Some (replicate 150 "a"));
   end_ev "page" None; end_ev "mediawiki" None].

Definition export_ns : string := "{http://www.mediawiki.org/xml/export-0.10/}".

Definition five_pages : list event :=
  (start_ev (export_ns ++ "mediawiki")
   :: page_events export_ns "One" (replicate 101 "a")
   ++ page_events export_ns "Two" (replicate 120 "b")
   ++ page_events export_ns "Three" (replicate 130 "c")
   ++ page_events export_ns "Four" (replicate 140 "d")
   ++ page_events export_ns "Five" (replicate 150 "e")
   ++ [end_ev (export_ns ++ "mediawiki") None])%list.

(** ** Definitions for further properties of the rules *)

(** The least number of characters a match of [r] consumes. *)
Fixpoint min_len (r : regex) : nat :=
  match r with
  | Chr _ => 1%nat
  | Cat r1 r2 => (min_len r1 + min_len r2)%nat
  | Grp _ r1 => min_len r1
  | Eps | Star _ _ | Opt _ | Bol | Eol => 0%nat
  end.

(** The replacement templates [clean_text] uses: nothing, one group of the
    match, or a literal no longer than the shortest match. *)
Definition fits (r : regex) (t : list ritem) : bool :=
  match t with
  | [] => true
  | [RGrp _] => true
  | [RLit l] => Nat.leb (length l) (min_len r)
  | _ => false
  end.

Definition caps_within (n : nat) (cs : caps) : Prop :=
  Forall (fun e => (length (snd e) <= n)%nat) cs.

(** Whether the text begins with a whitespace character. *)
Definition hd_space (l : list ascii) : bool :=
  match l with
  | c :: _ => isspace c
  | [] => false
  end.

(** The text after its leading run of characters of a class, and the length
    of that run. *)
Fixpoint drop_run (p : ascii -> bool) (s : list ascii) : list ascii :=
  match s with
  | c :: s' => if p c then drop_run p s' else s
  | [] => []
  end.

Fixpoint run_len (p : ascii -> bool) (s : list ascii) : nat :=
  match s with
  | c :: s' => if p c then S (run_len p s') else O
  | [] => O
  end.

(** One space for every run of spaces, as a scan: a space is dropped when
    the character before it was a space. *)
Fixpoint squeeze_from (after_space : bool) (s : list ascii) : list ascii :=
  match s with
  | [] => []
  | c :: s' =>
      if ch " " c && after_space then squeeze_from true s'
      else c :: squeeze_from (ch " " c) s'
  end.

(** Two newlines for every longer run of newlines, as a scan: [run] counts
    the newlines just kept, and a third one is dropped. *)
Fixpoint squeeze_nl (run : nat) (s : list ascii) : list ascii :=
  match s with
  | [] => []
  | c :: s' =>
      if ch newline c then
        if Nat.leb 2 run then squeeze_nl run s'
        else c :: squeeze_nl (S run) s'
      else c :: squeeze_nl O s'
  end.

(** A complete tag begins here: an opening angle bracket, a character other
    than a closing one, and a closing angle bracket somewhere after. *)
Definition tag_here (s : list ascii) : bool :=
  match s with
  | c0 :: c1 :: s2 => ch "<" c0 && not_ch ">" c1 && existsb (ch ">") s2
  | _ => false
  end.

Fixpoint has_tag (s : list ascii) : bool :=
  tag_here s
  || match s with
     | [] => false
     | _ :: s' => has_tag s'
     end.

(** The list rule as a scan: at the start of a line the run of marker
    characters is dropped. *)
Definition marker : ascii -> bool :=
  one_of ["*"%char; "#"%char; ":"%char; ";"%char].

Fixpoint strip_lm (bol : bool) (s : list ascii) : list ascii :=
  match s with
  | [] => []
  | c :: s' =>
      if bol && marker c then strip_lm true s'
      else c :: strip_lm (ch newline c) s'
  end.

(** A marker character stands at the start of a line. *)
Fixpoint marker_at_bol (bol : bool) (s : list ascii) : bool :=
  match s with
  | [] => false
  | c :: s' => (bol && marker c) || marker_at_bol (ch newline c) s'
  end.

(** ** Definitions for further properties of the loop *)

Fixpoint has_char (c : ascii) (s : string) : bool :=
  match s with
  | EmptyString => false
  | String a s' => Ascii.eqb a c || has_char c s'
  end.

Definition is_end_text (ev : event) : bool :=
  match fst ev with
  | End => String.eqb (local_name (tag (snd ev))) "text"
  | Start => false
  end.

(** ** The pages of an input, read off the event stream *)

(** The candidates of an event stream: for every event that ends a page, the
    title and the text that the page accumulator holds when it arrives. The
    start of a page opens a page and empties both buffers; while a page is
    open, the end of a title or of a text element fills its buffer; the end
    of a page hands the two buffers to the filters and closes the page,
    leaving the buffers as they are. [inside], [title] and [body] are the
    accumulator before the first event. *)
Fixpoint candidates (inside : bool) (title body : option string)
    (events : list event) : list (option string * option string) :=
  match events with
  | [] => []
  | ev :: rest =>
      if is_start_page ev then candidates true None None rest
      else if is_end_title ev && inside
      then candidates inside (text (snd ev)) body rest
      else if is_end_text ev && inside
      then candidates inside title (text (snd ev)) rest
      else if is_end_page ev
      then (title, body) :: candidates false title body rest
      else candidates inside title body rest
  end.

(** A candidate passes both filters when its title and its text are present
    and non-empty, the title has none of the special prefixes, and the
    cleaned text is longer than 100 characters. *)
Definition passes (cand : option string * option string) : bool :=
  match cand with
  | (Some title, Some body) =>
      nonempty title && nonempty body
      && negb (startswith_any title special_prefixes)
      && (clean_len body >? 100)
  | _ => false
  end.

Definition record_for (cand : option string * option string)
    : string * string :=
  match cand with
  | (Some title, Some body) => (title, clean_text body)
  | _ => ("", "")
  end.

(** The eligible pages of an input, in its order and each with its cleaned
    text: the candidates that pass both filters. The first event, the start
    of the root element, belongs to no page. *)
Definition eligible (events : list event) : list (string * string) :=
  match events with
  | [] => []
  | _ :: rest =>
      map record_for (filter passes (candidates false None None rest))
  end.

(** A dump of well-formed pages, each with one title and one text element,
    between the two events of a root element. *)
Definition document (ns : string) (pages : list (string * string))
    : list event :=
  (start_ev (ns ++ "mediawiki")
   :: flat_map (fun p => page_events ns (fst p) (snd p)) pages
   ++ [end_ev (ns ++ "mediawiki") None])%list.

(** The texts carried by the events that end a title, and by those that end
    a text element. *)
Definition title_texts (events : list event) : list string :=
  flat_map (fun ev => if is_end_title ev
                      then match text (snd ev) with Some x => [x] | None => [] end
                      else []) events.

Definition body_texts (events : list event) : list string :=
  flat_map (fun ev => if is_end_text ev
                      then match text (snd ev) with Some x => [x] | None => [] end
                      else []) events.

Definition report_articles (r : report) : Z :=
  match r with
  | Progress n _ | Summary n _ => n
  end.

Definition is_progress (r : report) : bool :=
  match r with
  | Progress _ _ => true
  | Summary _ _ => false
  end.

Definition titles_sum (records : list (string * string)) : Z :=
  fold_right (fun rec acc => Z.of_nat (String.length (fst rec)) + acc) 0 records.

(** A progress line is right for the records written so far when it reports
    a positive multiple of 100 and the total cleaned size of that many
    records. *)
Definition progress_line_ok (records : list (string * string)) (r : report)
    : Prop :=
  match r with
  | Progress n size =>
      0 < n /\ n mod 100 = 0 /\ n <= Z.of_nat (length records)
      /\ size = sizes_sum (firstn (Z.to_nat n) records)
  | Summary _ _ => False
  end.

(** A record that passed both filters, made from a title event and a text
    event of the input. *)
Definition record_ok (events : list event) (rec : string * string) : Prop :=
  fst rec <> ""
  /\ startswith_any (fst rec) special_prefixes = false
  /\ (100 < String.length (snd rec))%nat
  /\ In (fst rec) (title_texts events)
  /\ exists body, In body (body_texts events) /\ body <> ""
                  /\ snd rec = clean_text body.

Definition progress_inv (st : state) : Prop :=
  counters_ok st
  /\ Z.of_nat (length (console st)) = article_count st / 100
  /\ map report_articles (console st)
     = map (fun k => 100 * Z.of_nat k) (List.seq 1 (length (console st)))
  /\ Forall (progress_line_ok (out st)) (console st).

(** The two buffers hold texts of title and text events of the input. *)
Definition buffers_ok (events : list event) (st : state) : Prop :=
  (forall t, current_title st = Some t -> In t (title_texts events))
  /\ (forall b, current_text st = Some b -> In b (body_texts events)).

(** * Properties *)

Local Close Scope Z_scope.
Local Close Scope string_scope.

(** ** Reasoning about the matcher *)

Lemma ch_true c x : ch c x = true <-> x = c.
Proof. unfold ch. apply Ascii.eqb_eq. Qed.

Lemma ch_false c x : ch c x = false <-> x <> c.
Proof. unfold ch. apply Ascii.eqb_neq. Qed.

Lemma not_ch_true c x : not_ch c x = true <-> x <> c.
Proof. unfold not_ch. rewrite negb_true_iff. apply Ascii.eqb_neq. Qed.

Lemma ch_refl c : ch c c = true.
Proof. apply ch_true. reflexivity. Qed.

Lemma not_ch_refl c : not_ch c c = false.
Proof. unfold not_ch. rewrite Ascii.eqb_refl. reflexivity. Qed.

Lemma rmatch_seq_cons r l k prev s cs :
  rmatch (seq (r :: l)) k prev s cs = rmatch r (rmatch (seq l) k) prev s cs.
Proof. reflexivity. Qed.

Lemma firstn_length_diff (A : Type) (a b : list A) :
  firstn (length (a ++ b) - length b) (a ++ b) = a.
Proof.
  rewrite length_app.
  replace (length a + length b - length b)%nat with (length a + 0)%nat by lia.
  rewrite firstn_app_2. cbn. apply app_nil_r.
Qed.

(** A greedy repetition runs over a block of characters of the class up to
    the first character outside it; when the continuation succeeds there,
    that is the match. *)
Lemma rep_greedy_run p k : forall body prev rest r,
  Forall (fun c => p c = true) body ->
  match rest with [] => True | c :: _ => p c = false end ->
  (forall pv, k pv rest = Some r) ->
  rep_greedy p k prev (body ++ rest) = Some r.
Proof.
  induction body as [|a body IH]; intros prev rest r Hall Hstop Hk; cbn.
  - destruct rest as [|c rest]; cbn; [apply Hk|]. rewrite Hstop. apply Hk.
  - inversion Hall as [|? ? Ha Hb]; subst. rewrite Ha.
    rewrite (IH (Some a) rest r Hb Hstop Hk). reflexivity.
Qed.

(** Patterns without [^] do not look at the character before the match. *)
Lemma rmatch_prev r : uses_bol r = false ->
  forall k, (forall p1 p2 s cs, k p1 s cs = k p2 s cs) ->
  forall p1 p2 s cs, rmatch r k p1 s cs = rmatch r k p2 s cs.
Proof.
  induction r as [|p|g p|r IH|r1 IH1 r2 IH2|n r IH| |];
    cbn [uses_bol]; intros Hb k Hk p1 p2 s cs; cbn [rmatch].
  - apply Hk.
  - reflexivity.
  - destruct g.
    + destruct s as [|c s]; cbn; [apply Hk|].
      rewrite (Hk p1 p2). reflexivity.
    + destruct s as [|c s]; cbn; rewrite (Hk p1 p2); reflexivity.
  - rewrite (IH Hb k Hk p1 p2), (Hk p1 p2). reflexivity.
  - apply orb_false_iff in Hb. destruct Hb as [Hb1 Hb2].
    apply IH1; [exact Hb1|]. intros q1 q2 s' cs'. apply IH2; assumption.
  - apply IH; [exact Hb|]. intros q1 q2 s' cs'. apply Hk.
  - discriminate.
  - rewrite (Hk p1 p2). reflexivity.
Qed.

Lemma match_at_prev r b p1 p2 s : uses_bol r = false ->
  match_at r b p1 s = match_at r b p2 s.
Proof.
  intros Hb. unfold match_at. apply rmatch_prev; [exact Hb|].
  reflexivity.
Qed.

Lemma sub_from_prev r t skip p1 p2 s : uses_bol r = false ->
  sub_from r t skip p1 s = sub_from r t skip p2 s.
Proof.
  intros Hb. destruct s as [|c s]; cbn [sub_from].
  - rewrite (match_at_prev r false p1 p2 [] Hb). reflexivity.
  - destruct skip; [|reflexivity].
    rewrite (match_at_prev r false p1 p2 (c :: s) Hb).
    rewrite (match_at_prev r true p1 p2 (c :: s) Hb). reflexivity.
Qed.

(** Dropping the characters of a match. *)
Lemma sub_from_skip r t : forall l prev rest,
  sub_from r t (length l) prev (l ++ rest)
  = sub_from r t 0 (prev_after l prev) rest.
Proof.
  induction l as [|a l IH]; intros prev rest; unfold prev_after; cbn [length app fold_left].
  - reflexivity.
  - cbn [sub_from]. apply IH.
Qed.

(** Copying characters at which no match starts. *)
Lemma sub_from_copy r t : forall pre prev rest,
  (forall a b pv, pre = a ++ b -> b <> [] ->
                  match_at r false pv (b ++ rest) = None) ->
  sub_from r t 0 prev (pre ++ rest)
  = pre ++ sub_from r t 0 (prev_after pre prev) rest.
Proof.
  induction pre as [|c pre IH]; intros prev rest Hno;
    unfold prev_after; cbn [app fold_left].
  - reflexivity.
  - cbn [sub_from].
    pose proof (Hno [] (c :: pre) prev eq_refl ltac:(discriminate)) as H0.
    cbn [app] in H0. rewrite H0. f_equal. apply IH.
    intros a b pv -> Hb. apply (Hno (c :: a) b pv); [reflexivity|exact Hb].
Qed.

Lemma occurs_suffix p : forall a b,
  occurs p (a ++ b) = false -> occurs p b = false.
Proof.
  induction a as [|c a IH]; intros b H; cbn [app] in H.
  - exact H.
  - cbn [occurs] in H. apply orb_false_iff in H. apply IH, H.
Qed.

Lemma occurs_here p s : occurs p s = false -> starts_with p s = false.
Proof.
  destruct s; cbn [occurs]; intros H; apply orb_false_iff in H; apply H.
Qed.

(** Replacing one match that consumes [m] and leaves [rest]. *)
Lemma sub_from_match r t prev m rest cs :
  m <> [] ->
  match_at r false prev (m ++ rest) = Some (rest, cs) ->
  sub_from r t 0 prev (m ++ rest)
  = expand t cs ++ sub_from r t 0 (prev_after m prev) rest.
Proof.
  intros Hm Hmatch. destruct m as [|c m]; [contradiction|].
  cbn [app sub_from]. change (c :: m ++ rest) with ((c :: m) ++ rest).
  rewrite Hmatch. rewrite length_app.
  replace (length (c :: m) + length rest - length rest)%nat
    with (S (length m)) by (cbn [length]; lia).
  rewrite sub_from_skip. reflexivity.
Qed.

(** ** The template rule *)

Lemma templates_body_spec (S : list ascii) : forall s prev,
  rmatch (seq [Star true (not_ch "}"); lit (chars "}}")])
         (accept false S) prev s []
  = option_map (fun rest => (rest, [])) (upto_close s).
Proof.
  cbn [seq lit chars list_ascii_of_string rmatch].
  induction s as [|c s IH]; intros prev; cbn [rep_greedy upto_close].
  - reflexivity.
  - unfold not_ch at 1. fold (ch "}" c).
    destruct (ch "}" c) eqn:Hc; cbn [negb].
    + destruct s as [|c' s]; [reflexivity|].
      destruct (ch "}" c'); reflexivity.
    + rewrite IH. destruct (upto_close s); reflexivity.
Qed.

Lemma templates_match_spec prev s :
  match_at templates_re false prev s
  = match s with
    | c1 :: c2 :: s2 =>
        if ch "{" c1 && ch "{" c2
        then option_map (fun rest => (rest, [])) (upto_close s2)
        else None
    | _ => None
    end.
Proof.
  unfold match_at, templates_re. rewrite rmatch_seq_cons.
  cbn [lit chars list_ascii_of_string rmatch].
  destruct s as [|c1 [|c2 s2]].
  - reflexivity.
  - destruct (ch "{" c1); reflexivity.
  - destruct (ch "{" c1); [|reflexivity].
    destruct (ch "{" c2); [|reflexivity].
    cbn [andb]. apply templates_body_spec.
Qed.

Lemma upto_close_run post : forall x,
  Forall (fun c => c <> "}") x ->
  upto_close (x ++ "}" :: "}" :: post) = Some post.
Proof.
  induction x as [|c x IH]; intros Hx; cbn [app upto_close].
  - rewrite ch_refl. reflexivity.
  - inversion Hx as [|? ? Hc Hrest]; subst.
    apply ch_false in Hc. rewrite Hc. apply IH, Hrest.
Qed.

Lemma templates_match_span prev body post :
  Forall (fun c => c <> "}") body ->
  match_at templates_re false prev (template_span body ++ post)
  = Some (post, []).
Proof.
  intros Hb. rewrite templates_match_spec. unfold template_span.
  cbn [chars list_ascii_of_string app]. rewrite !ch_refl. cbn [andb].
  rewrite <- app_assoc. cbn [app].
  rewrite (upto_close_run post body Hb). reflexivity.
Qed.

(** Where a match that starts before a span can end: inside the text before
    the span, or exactly at the end of the span. *)
Lemma upto_close_before_span body post rest : forall a,
  Forall (fun c => c <> "}") body ->
  upto_close (a ++ template_span body ++ post) = Some rest ->
  (exists a1 a2, a = a1 ++ a2 /\ rest = a2 ++ template_span body ++ post)
  \/ rest = post.
Proof.
  intros a Hb. induction a as [|c a IH]; cbn [app].
  - unfold template_span. cbn [chars list_ascii_of_string app].
    rewrite <- app_assoc. cbn [app].
    change ("{" :: "{" :: body ++ "}" :: "}" :: post)
      with (("{" :: "{" :: body) ++ "}" :: "}" :: post).
    rewrite upto_close_run.
    + intros [= <-]. right. reflexivity.
    + repeat constructor; try discriminate. exact Hb.
  - cbn [upto_close]. destruct (ch "}" c).
    + destruct a as [|c' a]; cbn [app].
      * unfold template_span. cbn. discriminate.
      * destruct (ch "}" c'); [|discriminate].
        intros [= <-]. left. exists [c; c'], a. split; reflexivity.
    + intros H. destruct (IH H) as [(a1 & a2 & -> & ->) | ->].
      * left. exists (c :: a1), a2. split; reflexivity.
      * right. reflexivity.
Qed.

Lemma templates_match_before_span prev body post pre rest cs :
  Forall (fun c => c <> "}") body ->
  pre <> [] ->
  match_at templates_re false prev (pre ++ template_span body ++ post)
  = Some (rest, cs) ->
  (exists a1 a2, pre = a1 ++ a2 /\ a1 <> []
                 /\ rest = a2 ++ template_span body ++ post)
  \/ rest = post.
Proof.
  intros Hb Hpre. rewrite templates_match_spec.
  destruct pre as [|c1 pre]; [contradiction|]. cbn [app].
  destruct pre as [|c2 pre]; cbn [app].
  - unfold template_span at 1. cbn [chars list_ascii_of_string app].
    destruct (ch "{" c1 && ch "{" "{"); [|discriminate].
    rewrite <- app_assoc. cbn [app].
    change ("{" :: body ++ "}" :: "}" :: post)
      with (("{" :: body) ++ "}" :: "}" :: post).
    rewrite upto_close_run.
    + cbn. intros [= <- _]. right. reflexivity.
    + constructor; [discriminate|exact Hb].
  - destruct (ch "{" c1 && ch "{" c2); [|discriminate].
    destruct (upto_close (pre ++ template_span body ++ post)) as [rest'|] eqn:E;
      [|discriminate].
    cbn. intros [= <- _].
    destruct (upto_close_before_span body post rest' pre Hb E)
      as [(a1 & a2 & -> & ->) | ->].
    + left. exists (c1 :: c2 :: a1), a2. repeat split. discriminate.
    + right. reflexivity.
Qed.

Lemma subseq_nil_l (A : Type) (l : list A) : subseq [] l.
Proof. induction l; constructor; assumption. Qed.

Lemma strip_templates_span_any body post :
  Forall (fun c => c <> "}") body ->
  forall pre skip prev,
    (skip <= length pre)%nat ->
    exists pre',
      subseq pre' pre
      /\ sub_from templates_re [] skip prev (pre ++ template_span body ++ post)
         = pre' ++ strip_templates post.
Proof.
  intros Hb. induction pre as [|c pre IH]; intros skip prev Hskip.
  - exists []. split; [constructor|]. cbn [length] in Hskip.
    replace skip with 0%nat by lia. cbn [app].
    rewrite (sub_from_match templates_re [] prev (template_span body) post []).
    + cbn [expand app]. apply sub_from_prev. reflexivity.
    + unfold template_span. cbn. discriminate.
    + apply templates_match_span, Hb.
  - cbn [app sub_from]. destruct skip as [|n].
    + change (c :: pre ++ template_span body ++ post)
        with ((c :: pre) ++ template_span body ++ post).
      destruct (match_at templates_re false prev
                  ((c :: pre) ++ template_span body ++ post))
        as [[rest cs]|] eqn:E.
      * destruct (templates_match_before_span prev body post (c :: pre) rest cs
                    Hb ltac:(discriminate) E)
          as [(a1 & a2 & Hsplit & Hne & ->) | ->].
        -- destruct a1 as [|c' a1]; [contradiction|].
           cbn [app] in Hsplit. injection Hsplit as <- ->.
           match goal with
           | |- context [(length ?x - length ?y)%nat] =>
               replace (length x - length y)%nat with (S (length a1))
                 by (cbn [app length]; rewrite !length_app; cbn [length]; lia)
           end.
           destruct (IH (length a1) (Some c)
                       ltac:(rewrite length_app; lia))
             as (pre' & Hsub & Heq).
           exists pre'. split; [constructor; exact Hsub|].
           cbn [expand app]. exact Heq.
        -- match goal with
           | |- context [(length ?x - length ?y)%nat] =>
               replace (length x - length y)%nat
                 with (S (length (pre ++ template_span body)))
                 by (cbn [app length]; rewrite !length_app; cbn [length]; lia)
           end.
           exists []. split; [apply subseq_nil_l|].
           cbn [expand app]. rewrite app_assoc, sub_from_skip.
           apply sub_from_prev. reflexivity.
      * destruct (IH 0%nat (Some c) ltac:(lia)) as (pre' & Hsub & Heq).
        exists (c :: pre'). split; [constructor; exact Hsub|].
        rewrite Heq. reflexivity.
    + destruct (IH n (Some c) ltac:(cbn [length] in Hskip; lia))
        as (pre' & Hsub & Heq).
      exists pre'. split; [constructor; exact Hsub|exact Heq].
Qed.

Lemma rep_greedy_run_fail p k : forall body prev rest,
  Forall (fun c => p c = true) body ->
  match rest with [] => True | c :: _ => p c = false end ->
  (forall pv b, (exists a, body = a ++ b) -> k pv (b ++ rest) = None) ->
  rep_greedy p k prev (body ++ rest) = None.
Proof.
  induction body as [|a body IH]; intros prev rest Hall Hstop Hk.
  - cbn [app]. pose proof (Hk prev [] (ex_intro _ [] eq_refl)) as H0.
    cbn [app] in H0. destruct rest as [|c rest]; cbn; [exact H0|].
    rewrite Hstop. exact H0.
  - inversion Hall as [|? ? Ha Hb]; subst. cbn [app rep_greedy]. rewrite Ha.
    rewrite (IH (Some a) rest Hb Hstop).
    + apply (Hk prev (a :: body)). exists []. reflexivity.
    + intros pv b [a' Ha']. apply Hk. exists (a :: a'). rewrite Ha'.
      reflexivity.
Qed.

(** ** The link rule *)

Lemma none_of_pipe_bracket c :
  c <> "|" /\ c <> "]" -> none_of ["|"; "]"] c = true.
Proof.
  intros [H1 H2]. unfold none_of. cbn [existsb].
  apply Ascii.eqb_neq in H1, H2. rewrite H1, H2. reflexivity.
Qed.

(** The display part and the closing marker. *)
Lemma links_tail_match (S : list ascii) pv cs display post :
  Forall (fun c => c <> "]") display ->
  rmatch (seq [Grp 2 (Star true (not_ch "]")); lit (chars "]]")])
         (accept false S) pv (display ++ "]" :: "]" :: post) cs
  = Some (post, (2%nat, display) :: cs).
Proof.
  intros Hd. cbn [seq lit chars list_ascii_of_string rmatch].
  apply rep_greedy_run.
  - eapply Forall_impl; [|exact Hd]. intros c Hc. apply not_ch_true, Hc.
  - apply not_ch_refl.
  - intros pv'. rewrite !ch_refl. unfold accept. cbn [andb].
    rewrite (firstn_length_diff _ display ("]" :: "]" :: post)).
    reflexivity.
Qed.

Lemma links_match_piped prev target display post :
  Forall (fun c => c <> "|" /\ c <> "]") target ->
  Forall (fun c => c <> "]") display ->
  match_at links_re false prev
    (chars "[[" ++ target ++ chars "|" ++ display ++ chars "]]" ++ post)
  = Some (post, [(2%nat, display); (1%nat, target ++ chars "|")]).
Proof.
  intros Ht Hd. unfold match_at, links_re.
  cbn [chars list_ascii_of_string app].
  rewrite rmatch_seq_cons. cbn [lit rmatch]. rewrite !ch_refl.
  rewrite rmatch_seq_cons. cbn [rmatch].
  rewrite (rep_greedy_run _ _ target (Some "[")
             ("|" :: display ++ "]" :: "]" :: post)
             (post, [(2%nat, display); (1%nat, target ++ ["|"])])).
  - reflexivity.
  - eapply Forall_impl; [|exact Ht]. intros c. apply none_of_pipe_bracket.
  - reflexivity.
  - intros pv. rewrite ch_refl. rewrite links_tail_match by exact Hd.
    change (target ++ "|" :: display ++ "]" :: "]" :: post)
      with (target ++ ["|"] ++ display ++ "]" :: "]" :: post).
    rewrite app_assoc.
    rewrite (firstn_length_diff _ (target ++ ["|"])).
    reflexivity.
Qed.

Lemma links_match_plain prev target post :
  Forall (fun c => c <> "|" /\ c <> "]") target ->
  match_at links_re false prev (chars "[[" ++ target ++ chars "]]" ++ post)
  = Some (post, [(2%nat, target)]).
Proof.
  intros Ht. unfold match_at, links_re.
  cbn [chars list_ascii_of_string app].
  rewrite rmatch_seq_cons. cbn [lit rmatch]. rewrite !ch_refl.
  rewrite rmatch_seq_cons. cbn [rmatch].
  rewrite rep_greedy_run_fail.
  - apply links_tail_match.
    eapply Forall_impl; [|exact Ht]. intros c [_ Hc]. exact Hc.
  - eapply Forall_impl; [|exact Ht]. intros c. apply none_of_pipe_bracket.
  - reflexivity.
  - intros pv b [a Ha]. destruct b as [|c b]; cbn [app].
    + reflexivity.
    + assert (Hc : c <> "|").
      { rewrite Ha in Ht. apply Forall_app in Ht. destruct Ht as [_ Ht].
        inversion Ht as [|? ? [H1 _] _]; subst. exact H1. }
      apply ch_false in Hc. rewrite Hc. reflexivity.
Qed.

Lemma links_no_match_here pv s :
  starts_with (chars "[[") s = false -> match_at links_re false pv s = None.
Proof.
  unfold match_at, links_re. rewrite rmatch_seq_cons.
  cbn [lit chars list_ascii_of_string rmatch starts_with].
  destruct s as [|c1 [|c2 s]].
  - reflexivity.
  - destruct (ch "[" c1); reflexivity.
  - destruct (ch "[" c1); [|reflexivity].
    destruct (ch "[" c2); [discriminate|reflexivity].
Qed.

(** A match at [m], which begins with an opening bracket, after text in
    which no opening marker begins. *)
Lemma unwrap_links_span pre m post cs :
  occurs (chars "[[") (pre ++ chars "[") = false ->
  (forall prev,
      match_at links_re false prev (("[" :: m) ++ post) = Some (post, cs)) ->
  unwrap_links (pre ++ ("[" :: m) ++ post)
  = pre ++ group 2 cs ++ unwrap_links post.
Proof.
  intros Hpre Hmatch. unfold unwrap_links, sub.
  rewrite sub_from_copy.
  - f_equal.
    rewrite (sub_from_match links_re [RGrp 2] _ ("[" :: m) post cs
               ltac:(discriminate) (Hmatch _)).
    cbn [expand]. rewrite app_nil_r. f_equal.
    apply sub_from_prev. reflexivity.
  - intros a b pv -> Hb. apply links_no_match_here.
    rewrite <- app_assoc in Hpre. apply occurs_suffix, occurs_here in Hpre.
    destruct b as [|c1 [|c2 b]]; [contradiction|exact Hpre|exact Hpre].
Qed.

Local Open Scope string_scope.

(** ** The cleaning pipeline on the inputs the spec names *)

(** The pipeline after each rule, on the end-to-end input. *)
Example end_to_end_trace :
  let t0 := chars end_to_end_input in
  let t1 := strip_templates t0 in
  let t2 := unwrap_links t1 in
  let t3 := strip_ref_self (strip_ref_pairs t2) in
  let t4 := strip_italic (strip_bold (strip_tags t3)) in
  let t5 := squeeze_spaces t4 in
  text_of t1 = "'''Bold''' text with a [[Link|shown]] and  reference<ref>note</ref> end."
  /\ text_of t2 = "'''Bold''' text with a shown and  reference<ref>note</ref> end."
  /\ text_of t3 = "'''Bold''' text with a shown and  reference end."
  /\ text_of t4 = "Bold text with a shown and  reference end."
  /\ text_of t5 = "Bold text with a shown and reference end.".
Proof. vm_compute. repeat split. Qed.

(** C1, as the spec states it, fails: on the end-to-end input [clean_text]
    does not return "Bold text with a shown and  end." *)
Lemma C1_spec_output_refuted :
  clean_text end_to_end_input <> "Bold text with a shown and  end.".
Proof. vm_compute. discriminate. Qed.

(** C1 (amended): on the end-to-end input [clean_text] returns exactly
    "Bold text with a shown and reference end.": the word after the removed
    template stays, and the two spaces the template leaves behind are
    collapsed to one by the space rule. *)
Theorem C1_end_to_end :
  clean_text end_to_end_input = "Bold text with a shown and reference end.".
Proof. vm_compute. reflexivity. Qed.

(** C4: "<ref>x</ref>y" cleans to "y"; the pipeline with generic tag
    stripping moved before reference stripping gives "xy" on the same input,
    so the two orders differ. Rule by rule: the reference rule removes the
    whole span and leaves the tag rule nothing to do, while the tag rule run
    first removes the two markers only and leaves the reference rule no
    opening marker to find. *)
Theorem C4_reference_rule_before_tag_rule :
  let input := "<ref>x</ref>y" in
  clean_text input = "y"
  /\ clean_text_tags_first input = "xy"
  /\ clean_text input <> clean_text_tags_first input
  /\ text_of (strip_ref_pairs (chars input)) = "y"
  /\ text_of (strip_tags (strip_ref_pairs (chars input))) = "y"
  /\ text_of (strip_tags (chars input)) = "xy"
  /\ text_of (strip_ref_pairs (strip_tags (chars input))) = "xy".
Proof.
  vm_compute. repeat split. discriminate.
Qed.

(** ** C5 and C6: the template rule and the link rule *)

(** C5, as the spec states it, fails: the span "{{a}b}}" is delimited by the
    two markers, has no marker nested inside and no earlier closing marker,
    and the template rule leaves it in place. *)
Lemma C5_lone_brace_span_kept :
  let body := chars "a}b" in
  occurs (chars "{{") body = false
  /\ occurs (chars "}}") body = false
  /\ strip_templates (template_span body) = template_span body
  /\ strip_templates (template_span body) <> []
  /\ clean_text "{{a}b}}" = "{{a}b}}".
Proof. vm_compute. repeat split. discriminate. Qed.

(** C5 (amended): the template rule deletes every span that opens with "{{",
    closes with "}}" and has no closing brace in between, wherever it stands:
    no character of the span is left, of the text before the span only
    characters are dropped (by matches that begin there), and the text after
    the span is processed on its own. In particular "{{Infobox|x=1}}" cleans
    to the empty string. *)
Theorem C5_template_removal :
  forall pre body post : list ascii,
    Forall (fun c => c <> "}"%char) body ->
    (exists pre',
        subseq pre' pre
        /\ strip_templates (pre ++ template_span body ++ post)
           = (pre' ++ strip_templates post)%list)
    /\ clean_text "{{Infobox|x=1}}" = "".
Proof.
  intros pre body post Hb. split.
  - apply (strip_templates_span_any body post Hb pre 0%nat None). lia.
  - vm_compute. reflexivity.
Qed.

Lemma C5_template_removal_witness :
  (exists pre',
      subseq pre' (chars "and ")
      /\ strip_templates (chars "and " ++ template_span (chars "cite|x")
                                     ++ chars " reference")
         = (pre' ++ strip_templates (chars " reference"))%list)
  /\ clean_text "{{Infobox|x=1}}" = "".
Proof.
  apply (C5_template_removal (chars "and ") (chars "cite|x") (chars " reference")).
  repeat constructor; discriminate.
Defined.

(** The rule on nested templates: the first closing marker ends the match
    that began at the outer opening marker. *)
Example nested_template :
  text_of (strip_templates (chars "{{a{{b}}c}}")) = "c}}".
Proof. vm_compute. reflexivity. Qed.

(** C6, as the spec states it, fails: "[[a]b]]" has the form "[[target]]"
    with a target without pipe, and "[[a|b]c]]" the form
    "[[target|display]]"; the link rule leaves both as they are. A span that
    an earlier match overlaps is not replaced by its display text either. *)
Lemma C6_lone_bracket_span_kept :
  occurs (chars "|") (chars "a]b") = false
  /\ unwrap_links (plain_link (chars "a]b")) = plain_link (chars "a]b")
  /\ unwrap_links (plain_link (chars "a]b")) <> chars "a]b"
  /\ unwrap_links (piped_link (chars "a") (chars "b]c"))
     = piped_link (chars "a") (chars "b]c")
  /\ unwrap_links (piped_link (chars "a") (chars "b]c")) <> chars "b]c"
  /\ clean_text "[[a]b]]" = "[[a]b]]"
  /\ clean_text "[[a|b]c]]" = "[[a|b]c]]"
  /\ unwrap_links (chars "[[x|y" ++ piped_link (chars "a") (chars "b"))
     = chars "y[[a|b".
Proof. vm_compute. repeat split; discriminate. Qed.

(** C6 (amended): a span "[[target|display]]" whose target has neither pipe
    nor closing bracket and whose display text has no closing bracket is
    replaced by the display text; a span "[[target]]" whose target has
    neither pipe nor closing bracket is replaced by the target. The span
    stands after text in which no opening marker "[[" begins (so that no
    earlier match reaches into it); the text after it is processed on its
    own. In particular "[[Cat|Cats]]" cleans to "Cats" and "[[Dog]]" to
    "Dog". *)
Theorem C6_link_unwrapping :
  forall pre target display post : list ascii,
    occurs (chars "[[") (pre ++ chars "[") = false ->
    Forall (fun c => c <> "|"%char /\ c <> "]"%char) target ->
    Forall (fun c => c <> "]"%char) display ->
    unwrap_links (pre ++ piped_link target display ++ post)
    = (pre ++ display ++ unwrap_links post)%list
    /\ unwrap_links (pre ++ plain_link target ++ post)
       = (pre ++ target ++ unwrap_links post)%list
    /\ clean_text "[[Cat|Cats]]" = "Cats"
    /\ clean_text "[[Dog]]" = "Dog".
Proof.
  intros pre target display post Hpre Ht Hd. split; [|split].
  - apply (unwrap_links_span pre
             ("["%char :: target ++ chars "|" ++ display ++ chars "]]")%list post
             [(2%nat, display); (1%nat, (target ++ chars "|")%list)] Hpre).
    intros prev.
    refine (eq_trans _ (links_match_piped prev target display post Ht Hd)).
    f_equal. cbn [chars list_ascii_of_string app].
    repeat (rewrite <- app_assoc; cbn [app]). reflexivity.
  - apply (unwrap_links_span pre ("["%char :: target ++ chars "]]")%list post
             [(2%nat, target)] Hpre).
    intros prev.
    refine (eq_trans _ (links_match_plain prev target post Ht)).
    f_equal. cbn [chars list_ascii_of_string app].
    repeat (rewrite <- app_assoc; cbn [app]). reflexivity.
  - vm_compute. split; reflexivity.
Qed.

Lemma C6_link_unwrapping_witness :
  unwrap_links (chars "see [1], a " ++ piped_link (chars "Link") (chars "shown")
                  ++ chars " and [[x]]")
  = (chars "see [1], a " ++ chars "shown" ++ unwrap_links (chars " and [[x]]"))%list
  /\ unwrap_links (chars "see [1], a " ++ plain_link (chars "Link")
                     ++ chars " and [[x]]")
     = (chars "see [1], a " ++ chars "Link" ++ unwrap_links (chars " and [[x]]"))%list
  /\ clean_text "[[Cat|Cats]]" = "Cats"
  /\ clean_text "[[Dog]]" = "Dog".
Proof.
  apply (C6_link_unwrapping (chars "see [1], a ") (chars "Link") (chars "shown")
           (chars " and [[x]]")).
  - reflexivity.
  - repeat constructor; discriminate.
  - repeat constructor; discriminate.
Defined.

(** The rule is applied once, over the whole text: text that becomes a link
    only after the substitution is not unwrapped again, and with several
    pipes the display text starts after the first. *)
Example link_rule_once :
  text_of (unwrap_links (chars "[[a|[[b]]")) = "[[b"
  /\ text_of (unwrap_links (chars "[[a|b|c]]")) = "b|c".
Proof. vm_compute. repeat split. Qed.

(** ** The extraction loop *)

Local Open Scope Z_scope.

Lemma end_page_rejected max_articles st :
  accepted st = false ->
  let (st', stop) := end_page max_articles st in
  out st' = out st /\ console st' = console st
  /\ article_count st' = article_count st /\ text_size st' = text_size st
  /\ in_page st' = false /\ stop = false.
Proof.
  unfold accepted, end_page, clean_len.
  destruct (current_title st) as [title|]; [|intros _; cbn; tauto].
  destruct (current_text st) as [body|]; [|intros _; cbn; tauto].
  destruct (nonempty title && nonempty body); [|intros _; cbn; tauto].
  destruct (negb (startswith_any title special_prefixes)); [|intros _; cbn; tauto].
  cbn [andb].
  destruct (Z.of_nat (String.length (clean_text body)) >? 100);
    [discriminate|intros _; cbn; tauto].
Qed.

Lemma end_page_accepted max_articles st :
  accepted st = true ->
  exists title body,
    current_title st = Some title /\ current_text st = Some body /\
    let (st', stop) := end_page max_articles st in
    out st' = (out st ++ [(title, clean_text body)])%list
    /\ article_count st' = article_count st + 1
    /\ text_size st' = text_size st + clean_len body
    /\ stop = cap_reached max_articles (article_count st + 1).
Proof.
  unfold accepted, end_page, clean_len.
  destruct (current_title st) as [title|]; [|discriminate].
  destruct (current_text st) as [body|]; [|discriminate].
  intros H. exists title, body. split; [reflexivity|]. split; [reflexivity|].
  destruct (nonempty title && nonempty body); [|discriminate].
  destruct (negb (startswith_any title special_prefixes)); [|discriminate].
  cbn [andb] in H. rewrite H.
  destruct (cap_reached max_articles (article_count st + 1)); cbn; tauto.
Qed.

(** Events other than the end of a page write nothing and never stop the
    loop. *)
Lemma step_not_end_page max_articles ev st :
  is_end_page ev = false ->
  let (st', stop) := step max_articles ev st in
  out st' = out st /\ console st' = console st
  /\ article_count st' = article_count st /\ text_size st' = text_size st
  /\ stop = false.
Proof.
  unfold is_end_page, is_page, step. destruct ev as [kind elem]; cbn [fst snd].
  destruct kind.
  - intros _. destruct (String.eqb _ "page"); cbn; tauto.
  - intros H. rewrite H.
    destruct (String.eqb _ "title" && in_page st); [cbn; tauto|].
    destruct (String.eqb _ "text" && in_page st); cbn; tauto.
Qed.

Lemma step_end_page max_articles ev st :
  is_end_page ev = true ->
  step max_articles ev st = end_page max_articles st.
Proof.
  unfold is_end_page, is_page, step. destruct ev as [kind elem]; cbn [fst snd].
  destruct kind; [discriminate|].
  intros H. apply String.eqb_eq in H. rewrite H. reflexivity.
Qed.

Lemma prefix_app (p rest : string) : String.prefix p (p ++ rest) = true.
Proof.
  induction p as [|a p IH]; cbn.
  - destruct rest; reflexivity.
  - destruct (ascii_dec a a) as [_|n]; [exact IH|contradiction].
Qed.

Lemma startswith_any_In (title : string) (ps : list string) (p rest : string) :
  In p ps -> title = p ++ rest -> startswith_any title ps = true.
Proof.
  intros Hin ->. unfold startswith_any. apply existsb_exists.
  exists p. split; [exact Hin|apply prefix_app].
Qed.

(** C7: a candidate whose title or raw text is absent or empty, or whose
    title begins with one of "Wikipedia:", "Template:", "Category:", "File:",
    "Help:", produces no output record when its page closes, whatever the
    body is; the loop iteration ends normally, without stopping the run, and
    leaves the counters and the console untouched. *)
Theorem C7_pre_clean_rejection :
  forall (max_articles : option Z) (ev : event) (st : state),
    is_end_page ev = true ->
    (current_title st = None \/ current_title st = Some ""
     \/ current_text st = None \/ current_text st = Some ""
     \/ exists p rest, In p special_prefixes
                       /\ current_title st = Some (p ++ rest)) ->
    exists st',
      step max_articles ev st = (st', false)
      /\ out st' = out st /\ console st' = console st
      /\ article_count st' = article_count st
      /\ text_size st' = text_size st.
Proof.
  intros max_articles ev st Hev Hrej.
  assert (Hacc : accepted st = false).
  { unfold accepted.
    destruct Hrej as [H|[H|[H|[H|(p & rest & Hin & H)]]]]; rewrite H.
    - reflexivity.
    - destruct (current_text st); reflexivity.
    - destruct (current_title st); reflexivity.
    - destruct (current_title st) as [t|]; [|reflexivity].
      cbn [nonempty]. rewrite andb_false_r. reflexivity.
    - destruct (current_text st) as [body|]; [|reflexivity].
      rewrite (startswith_any_In _ _ p rest Hin eq_refl).
      cbn [negb]. rewrite andb_false_r. reflexivity. }
  rewrite (step_end_page _ _ _ Hev).
  pose proof (end_page_rejected max_articles st Hacc) as H.
  destruct (end_page max_articles st) as [st' stop].
  destruct H as (H1 & H2 & H3 & H4 & _ & ->).
  exists st'. tauto.
Qed.

Lemma C7_pre_clean_rejection_witness :
  exists st',
    step (Some 3) (end_ev "page" None)
      (at_page_end (Some "Help:Contents") (Some (replicate 200 "a")))
    = (st', false)
    /\ out st' = [] /\ console st' = []
    /\ article_count st' = 0 /\ text_size st' = 0.
Proof.
  apply (C7_pre_clean_rejection (Some 3) (end_ev "page" None)
           (at_page_end (Some "Help:Contents") (Some (replicate 200 "a")))).
  - reflexivity.
  - right; right; right; right. exists "Help:", "Contents".
    split; [simpl; tauto|reflexivity].
Defined.

(** The prefix test is case-sensitive and anchored at the first character:
    these two titles are written. *)
Example special_prefix_exact :
  map fst (out (fst (step None (end_ev "page" None)
     (at_page_end (Some "help:Contents") (Some (replicate 200 "a"))))))
  = ["help:Contents"]
  /\ map fst (out (fst (step None (end_ev "page" None)
     (at_page_end (Some "A File:x") (Some (replicate 200 "a"))))))
  = ["A File:x"].
Proof. vm_compute. split; reflexivity. Qed.

(** C2, as the spec states it, fails: a candidate that passes the pre-clean
    filter and whose cleaned text has exactly 100 characters is not
    written. *)
Lemma C2_length_100_not_written :
  let body := replicate 100 "a" in
  let st := at_page_end (Some "Article") (Some body) in
  startswith_any "Article" special_prefixes = false
  /\ String.length (clean_text body) = 100%nat
  /\ out (fst (step None (end_ev "page" None) st)) = [].
Proof. vm_compute. repeat split. Qed.

(** C2 (amended): a candidate that passes the pre-clean filter is rejected
    by the post-clean filter if and only if its cleaned text has at most 100
    characters; it is written, with its title and cleaned text, exactly when
    the cleaned text is longer than 100. *)
Theorem C2_post_clean_filter :
  forall (max_articles : option Z) (ev : event) (st : state)
         (title body : string),
    is_end_page ev = true ->
    current_title st = Some title -> current_text st = Some body ->
    title <> "" -> body <> "" ->
    startswith_any title special_prefixes = false ->
    let st' := fst (step max_articles ev st) in
    (out st' = out st <-> (String.length (clean_text body) <= 100)%nat)
    /\ (out st' = (out st ++ [(title, clean_text body)])%list
        <-> (100 < String.length (clean_text body))%nat).
Proof.
  intros max_articles ev st title body Hev Ht Hb Hne1 Hne2 Hns st'.
  subst st'. rewrite (step_end_page _ _ _ Hev).
  assert (Hacc : accepted st = (clean_len body >? 100)).
  { unfold accepted. rewrite Ht, Hb, Hns.
    destruct title; [contradiction|]. destruct body; [contradiction|].
    reflexivity. }
  assert (Hgrow : forall (l : list (string * string)) x, (l ++ [x])%list <> l).
  { intros l x H. apply (f_equal (@length _)) in H.
    rewrite length_app in H. cbn in H. lia. }
  unfold clean_len in Hacc.
  destruct (Z.of_nat (String.length (clean_text body)) >? 100) eqn:Hlen.
  - assert (100 < String.length (clean_text body))%nat
      by (apply Z.gtb_lt in Hlen; lia).
    destruct (end_page_accepted max_articles st Hacc)
      as (t' & b' & Ht' & Hb' & H').
    rewrite Ht in Ht'. rewrite Hb in Hb'.
    injection Ht' as <-. injection Hb' as <-.
    destruct (end_page max_articles st) as [st' stop]; cbn [fst].
    destruct H' as (Hout & _). rewrite Hout. split.
    + split; [intros E; exfalso; exact (Hgrow _ _ E)|lia].
    + tauto.
  - assert (String.length (clean_text body) <= 100)%nat.
    { destruct (Z.gtb_spec (Z.of_nat (String.length (clean_text body))) 100);
        [discriminate|lia]. }
    pose proof (end_page_rejected max_articles st Hacc) as H'.
    destruct (end_page max_articles st) as [st' stop]; cbn [fst].
    destruct H' as (Hout & _). rewrite Hout. split.
    + tauto.
    + split; [intros E; symmetry in E; exfalso; exact (Hgrow _ _ E)|lia].
Qed.

Lemma C2_post_clean_filter_witness :
  let st := at_page_end (Some "Article") (Some (replicate 101 "a")) in
  let st' := fst (step None (end_ev "page" None) st) in
  (out st' = out st
   <-> (String.length (clean_text (replicate 101 "a")) <= 100)%nat)
  /\ (out st' = (out st ++ [("Article", clean_text (replicate 101 "a"))])%list
      <-> (100 < String.length (clean_text (replicate 101 "a")))%nat).
Proof.
  apply (C2_post_clean_filter None (end_ev "page" None)
           (at_page_end (Some "Article") (Some (replicate 101 "a")))
           "Article" (replicate 101 "a")).
  - reflexivity.
  - reflexivity.
  - reflexivity.
  - discriminate.
  - discriminate.
  - reflexivity.
Defined.

(** ** The page accumulator *)

Lemma step_start_page max_articles ev st :
  is_start_page ev = true ->
  let (st', stop) := step max_articles ev st in
  in_page st' = true /\ out st' = out st /\ stop = false.
Proof.
  unfold is_start_page, is_page, step. destruct ev as [kind elem]; cbn [fst snd].
  destruct kind; [|discriminate].
  intros ->. cbn. tauto.
Qed.

Lemma step_end_title max_articles ev st :
  is_end_title ev = true -> in_page st = true ->
  let (st', stop) := step max_articles ev st in
  current_title st' = text (snd ev) /\ in_page st' = true
  /\ out st' = out st /\ stop = false.
Proof.
  unfold is_end_title, step. destruct ev as [kind elem]; cbn [fst snd].
  destruct kind; [discriminate|].
  intros -> ->. cbn. tauto.
Qed.

(** Inside a page, an event that neither opens nor closes a page keeps the
    page open and writes nothing; unless it ends a title, it keeps the
    title. *)
Lemma step_inside max_articles ev st :
  is_page ev = false ->
  let (st', stop) := step max_articles ev st in
  in_page st' = in_page st /\ out st' = out st /\ stop = false
  /\ (is_end_title ev = false -> current_title st' = current_title st).
Proof.
  unfold is_page, is_end_title, step. destruct ev as [kind elem]; cbn [fst snd].
  intros Hp. rewrite Hp. destruct kind.
  - cbn. tauto.
  - destruct (String.eqb _ "title"); cbn [andb].
    + destruct (in_page st) eqn:E; cbn; rewrite ?E.
      * repeat split; try reflexivity. discriminate.
      * destruct (String.eqb _ "text"); cbn; rewrite ?E; tauto.
    + destruct (String.eqb _ "text" && in_page st); cbn; tauto.
Qed.

Lemma loop_inside max_articles evs : forall st,
  Forall (fun ev => is_page ev = false) evs ->
  in_page (loop max_articles evs st) = in_page st
  /\ out (loop max_articles evs st) = out st
  /\ (Forall (fun ev => is_end_title ev = false) evs ->
      current_title (loop max_articles evs st) = current_title st).
Proof.
  induction evs as [|ev evs IH]; intros st Hall; cbn [loop].
  - tauto.
  - inversion Hall as [|? ? Hev Hrest]; subst.
    pose proof (step_inside max_articles ev st Hev) as H.
    destruct (step max_articles ev st) as [st1 stop].
    destruct H as (H1 & H2 & -> & H4).
    destruct (IH st1 Hrest) as (I1 & I2 & I3).
    rewrite I1, I2, H1, H2. repeat split.
    intros Hnt. inversion Hnt; subst. rewrite I3, H4 by assumption.
    reflexivity.
Qed.

Lemma loop_app_inside max_articles evs1 evs2 : forall st,
  Forall (fun ev => is_page ev = false) evs1 ->
  loop max_articles (evs1 ++ evs2) st
  = loop max_articles evs2 (loop max_articles evs1 st).
Proof.
  induction evs1 as [|ev evs1 IH]; intros st Hall; cbn [loop app].
  - reflexivity.
  - inversion Hall as [|? ? Hev Hrest]; subst.
    pose proof (step_inside max_articles ev st Hev) as H.
    destruct (step max_articles ev st) as [st1 stop].
    destruct H as (_ & _ & -> & _). apply IH, Hrest.
Qed.

(** C3, as the spec states it, fails: for a page with two title elements the
    record written carries the text of the second, not of the first. *)
Lemma C3_first_title_not_kept :
  exists st,
    extract_articles two_titles None = Some st
    /\ map fst (out st) = ["Second"]
    /\ map fst (out st) <> ["First"].
Proof.
  eexists. split; [reflexivity|]. vm_compute. split; [reflexivity|discriminate].
Qed.

(** C3 (amended): in a page within which no other page element starts or
    ends, every end of a title replaces the buffered title, so the candidate
    that the end of the page hands on carries the text of the last title
    element seen in that page: after the start of a page, any events [b1]
    inside it, the end of a title and further events [b2] that end no
    title, where neither [b1] nor [b2] starts or ends a page,
    [current_title] is the text of that title, and a record written when
    the page closes has it as its title. *)
Theorem C3_last_title_kept :
  forall (max_articles : option Z) (st : state)
         (page_start ttl page_end : event) (b1 b2 : list event),
    is_start_page page_start = true ->
    is_end_title ttl = true ->
    is_end_page page_end = true ->
    Forall (fun ev => is_page ev = false) b1 ->
    Forall (fun ev => is_page ev = false) b2 ->
    Forall (fun ev => is_end_title ev = false) b2 ->
    let st' := loop max_articles (page_start :: b1 ++ ttl :: b2) st in
    let st'' := fst (step max_articles page_end st') in
    current_title st' = text (snd ttl)
    /\ in_page st' = true
    /\ out st' = out st
    /\ (out st'' = out st
        \/ exists title clean,
             text (snd ttl) = Some title
             /\ out st'' = (out st ++ [(title, clean)])%list).
Proof.
  intros max_articles st page_start ttl page_end b1 b2
         Hps Htt Hpe Hb1 Hb2 Hnt st' st''.
  assert (Hst' : current_title st' = text (snd ttl)
                 /\ in_page st' = true /\ out st' = out st).
  { subst st'. cbn [loop].
    pose proof (step_start_page max_articles page_start st Hps) as H0.
    destruct (step max_articles page_start st) as [s0 stop0].
    destruct H0 as (Hin0 & Hout0 & ->).
    rewrite (loop_app_inside max_articles b1 (ttl :: b2) s0 Hb1).
    destruct (loop_inside max_articles b1 s0 Hb1) as (Hin1 & Hout1 & _).
    set (s1 := loop max_articles b1 s0) in *.
    cbn [loop].
    assert (Hin1' : in_page s1 = true) by congruence.
    pose proof (step_end_title max_articles ttl s1 Htt Hin1') as H2.
    destruct (step max_articles ttl s1) as [s2 stop2].
    destruct H2 as (Ht2 & Hin2 & Hout2 & ->).
    destruct (loop_inside max_articles b2 s2 Hb2) as (Hin3 & Hout3 & Ht3).
    rewrite (Ht3 Hnt), Hin3, Hout3. repeat split; congruence. }
  destruct Hst' as (Ht & Hin & Hout).
  repeat split; try assumption.
  subst st''. rewrite (step_end_page _ _ _ Hpe).
  destruct (accepted st') eqn:Hacc.
  - destruct (end_page_accepted max_articles st' Hacc)
      as (title & body & Ht' & _ & H').
    destruct (end_page max_articles st') as [s3 stop3]; cbn [fst].
    destruct H' as (Hout3 & _). right. exists title, (clean_text body).
    split; congruence.
  - pose proof (end_page_rejected max_articles st' Hacc) as H'.
    destruct (end_page max_articles st') as [s3 stop3]; cbn [fst].
    destruct H' as (Hout3 & _). left. congruence.
Qed.

Lemma C3_last_title_kept_witness :
  let st' :=
    loop None (start_ev "page"
                 :: [start_ev "title"; end_ev "title" (Some "First");
                     start_ev "title"]
                 ++ end_ev "title" (Some "Second")
                 :: [start_ev "text"; end_ev "text" (Some (replicate 150 "a"))])
         init in
  let st'' := fst (step None (end_ev "page" None) st') in
  current_title st' = Some "Second"
  /\ in_page st' = true
  /\ out st' = []
  /\ (out st'' = []
      \/ exists title clean,
           Some "Second" = Some title /\ out st'' = ([] ++ [(title, clean)])%list).
Proof.
  apply (C3_last_title_kept None init (start_ev "page")
           (end_ev "title" (Some "Second")) (end_ev "page" None)
           [start_ev "title"; end_ev "title" (Some "First"); start_ev "title"]
           [start_ev "text"; end_ev "text" (Some (replicate 150 "a"))]).
  - reflexivity.
  - reflexivity.
  - reflexivity.
  - repeat constructor.
  - repeat constructor.
  - repeat constructor.
Defined.

(** The condition on the events inside the page is needed: when a page
    element starts and ends inside a page, its end closes the page for the
    loop, a title that follows is not buffered, and nothing is written when
    the outer page closes. *)
Example nested_page_drops_later_title :
  eligible nested_page = []
  /\ exists st,
       extract_articles nested_page None = Some st
       /\ out st = []
       /\ current_title st = None.
Proof.
  split; [vm_compute; reflexivity|].
  eexists. split; [reflexivity|]. vm_compute. split; reflexivity.
Qed.

(** ** Counters, the cap and the summary *)

Lemma sizes_sum_app l1 l2 : sizes_sum (l1 ++ l2) = sizes_sum l1 + sizes_sum l2.
Proof.
  induction l1 as [|r l1 IH]; cbn [sizes_sum fold_right app].
  - reflexivity.
  - fold (sizes_sum (l1 ++ l2)). fold (sizes_sum l1). rewrite IH. lia.
Qed.

(** What one iteration does to the output and the counters. *)
Lemma step_spec max_articles ev st :
  let (st', stop) := step max_articles ev st in
  (out st' = out st /\ article_count st' = article_count st
   /\ text_size st' = text_size st /\ stop = false)
  \/ (exists title body,
        current_title st = Some title /\ current_text st = Some body
        /\ out st' = (out st ++ [(title, clean_text body)])%list
        /\ article_count st' = article_count st + 1
        /\ text_size st' = text_size st + clean_len body
        /\ stop = cap_reached max_articles (article_count st + 1)).
Proof.
  destruct (is_end_page ev) eqn:Hev.
  - rewrite (step_end_page _ _ _ Hev).
    destruct (accepted st) eqn:Hacc.
    + destruct (end_page_accepted max_articles st Hacc)
        as (title & body & Ht & Hb & H).
      destruct (end_page max_articles st) as [st' stop].
      right. exists title, body. tauto.
    + pose proof (end_page_rejected max_articles st Hacc) as H.
      destruct (end_page max_articles st) as [st' stop]. left. tauto.
  - pose proof (step_not_end_page max_articles ev st Hev) as H.
    destruct (step max_articles ev st) as [st' stop]. left. tauto.
Qed.

Lemma step_counters_ok max_articles ev st :
  counters_ok st -> counters_ok (fst (step max_articles ev st)).
Proof.
  intros [Hc Hs]. pose proof (step_spec max_articles ev st) as H.
  destruct (step max_articles ev st) as [st' stop]; cbn [fst].
  destruct H as [(Ho & Ha & Ht & _)|(title & body & _ & _ & Ho & Ha & Ht & _)];
    unfold counters_ok; rewrite Ho, Ha, Ht.
  - tauto.
  - rewrite length_app, sizes_sum_app. cbn [length sizes_sum fold_right snd].
    unfold clean_len. split; lia.
Qed.

Lemma loop_counters_ok max_articles evs : forall st,
  counters_ok st -> counters_ok (loop max_articles evs st).
Proof.
  induction evs as [|ev evs IH]; intros st Hst; cbn [loop].
  - exact Hst.
  - pose proof (step_counters_ok max_articles ev st Hst) as H.
    destruct (step max_articles ev st) as [st' stop]; cbn [fst] in H.
    destruct stop; [exact H|apply IH, H].
Qed.

(** C10: after any number of iterations of the loop, and at completion,
    [article_count] is the number of records written and [text_size] is the
    sum of the lengths of their cleaned texts; the summary is printed from
    exactly these two counters; and an iteration either writes nothing and
    leaves both counters alone, or writes one record, adds 1 to
    [article_count] and the length of the cleaned text to [text_size]. *)
Theorem C10_counters_track_output :
  (forall (max_articles : option Z) (events : list event),
      let st := loop max_articles events init in
      article_count st = Z.of_nat (length (out st))
      /\ text_size st = sizes_sum (out st))
  /\ (forall (max_articles : option Z) (root : event) (events : list event),
        exists st log,
          extract_articles (root :: events) max_articles = Some st
          /\ article_count st = Z.of_nat (length (out st))
          /\ text_size st = sizes_sum (out st)
          /\ console st
             = (log ++ [Summary (Z.of_nat (length (out st)))
                                (sizes_sum (out st))])%list)
  /\ (forall (max_articles : option Z) (ev : event) (st : state),
        let st' := fst (step max_articles ev st) in
        (out st' = out st /\ article_count st' = article_count st
         /\ text_size st' = text_size st)
        \/ (exists title body,
              out st' = (out st ++ [(title, clean_text body)])%list
              /\ article_count st' = article_count st + 1
              /\ text_size st'
                 = text_size st + Z.of_nat (String.length (clean_text body)))).
Proof.
  assert (Hinit : counters_ok init) by (split; reflexivity).
  split; [|split].
  - intros max_articles events. exact (loop_counters_ok _ _ _ Hinit).
  - intros max_articles root events.
    destruct (loop_counters_ok max_articles events init Hinit) as [Hc Hs].
    eexists. exists (console (loop max_articles events init)).
    split; [reflexivity|]. cbn [finish out article_count text_size console].
    rewrite <- Hc, <- Hs. tauto.
  - intros max_articles ev st. pose proof (step_spec max_articles ev st) as H.
    destruct (step max_articles ev st) as [st' stop]; cbn [fst].
    destruct H as [H|(title & body & _ & _ & H)]; [left; tauto|].
    right. exists title, body. unfold clean_len in H. tauto.
Qed.

(** ** The run without a cap writes the eligible pages *)

Lemma end_page_uncapped st :
  snd (end_page None st) = false
  /\ out (fst (end_page None st))
     = (if passes (current_title st, current_text st)
        then out st ++ [record_for (current_title st, current_text st)]
        else out st)%list
  /\ in_page (fst (end_page None st)) = false
  /\ current_title (fst (end_page None st)) = current_title st
  /\ current_text (fst (end_page None st)) = current_text st.
Proof.
  unfold end_page, passes, record_for, clean_len.
  destruct (current_title st) as [title|]; [|cbn; tauto].
  destruct (current_text st) as [body|]; [|cbn; tauto].
  destruct (nonempty title && nonempty body); [|cbn; tauto].
  destruct (negb (startswith_any title special_prefixes)); [|cbn; tauto].
  cbn [andb].
  destruct (Z.of_nat (String.length (clean_text body)) >? 100); cbn; tauto.
Qed.

(** Every iteration of the loop keeps the page accumulator that
    [candidates] describes, and the end of a page writes its candidate
    exactly when the candidate passes both filters. *)
Lemma loop_writes_candidates evs : forall st,
  out (loop None evs st)
  = (out st
     ++ map record_for
          (filter passes
             (candidates (in_page st) (current_title st) (current_text st)
                evs)))%list.
Proof.
  induction evs as [|ev evs IH]; intros st; cbn [loop candidates].
  - cbn [filter map]. rewrite app_nil_r. reflexivity.
  - destruct ev as [kind elem].
    unfold is_start_page, is_end_title, is_end_text, is_end_page, is_page, step.
    cbn [fst snd]. destruct kind.
    + destruct (String.eqb (local_name (tag elem)) "page");
        cbn [andb]; rewrite IH; reflexivity.
    + assert (Hpage :
        out (let (st', stop) := (if String.eqb (local_name (tag elem)) "page"
                                 then end_page None st else (st, false)) in
             if stop then st' else loop None evs st')
        = (out st
           ++ map record_for
                (filter passes
                   (if String.eqb (local_name (tag elem)) "page"
                    then (current_title st, current_text st)
                         :: candidates false (current_title st)
                              (current_text st) evs
                    else candidates (in_page st) (current_title st)
                           (current_text st) evs)))%list).
      { destruct (String.eqb (local_name (tag elem)) "page");
          [|apply IH].
        destruct (end_page_uncapped st) as (Hs & Ho & Hi & Ht & Hb).
        destruct (end_page None st) as [s1 stop]; cbn [fst snd] in *.
        subst stop. rewrite IH, Ho, Hi, Ht, Hb. cbn [filter].
        destruct (passes (current_title st, current_text st)); cbn [map].
        - rewrite <- app_assoc. reflexivity.
        - reflexivity. }
      destruct (String.eqb (local_name (tag elem)) "title") eqn:E1;
        destruct (in_page st) eqn:Ein; cbn [andb].
      * rewrite IH. cbn [out in_page current_title current_text].
        reflexivity.
      * rewrite !andb_false_r. exact Hpage.
      * destruct (String.eqb (local_name (tag elem)) "text") eqn:E2;
          cbn [andb].
        -- rewrite IH. cbn [out in_page current_title current_text].
           reflexivity.
        -- exact Hpage.
      * rewrite !andb_false_r. exact Hpage.
Qed.

Lemma eligible_uncapped (root : event) (events : list event) :
  eligible (root :: events) = out (loop None events init).
Proof.
  unfold eligible. rewrite loop_writes_candidates. reflexivity.
Qed.

(** C9: with [max_articles = 0] the cap test is false at every acceptance,
    because it asks for a non-zero cap before it compares; the run is then
    the run without a cap, and every eligible page is written. On the
    sample with five eligible pages that is five records, not none. *)
Theorem C9_zero_cap_is_no_cap :
  (forall count : Z, cap_reached (Some 0) count = false)
  /\ (forall events : list event,
        extract_articles events (Some 0) = extract_articles events None)
  /\ (forall (root : event) (events : list event),
        exists st,
          extract_articles (root :: events) (Some 0) = Some st
          /\ out st = eligible (root :: events))
  /\ (exists st,
        extract_articles five_pages (Some 0) = Some st
        /\ map fst (out st) = ["One"; "Two"; "Three"; "Four"; "Five"]
        /\ article_count st = 5).
Proof.
  split; [reflexivity|].
  assert (Hstep : forall ev st, step (Some 0) ev st = step None ev st).
  { intros [kind elem] st. unfold step, end_page. reflexivity. }
  assert (Hloop : forall evs st, loop (Some 0) evs st = loop None evs st).
  { induction evs as [|ev evs IH]; intros st; cbn [loop].
    - reflexivity.
    - rewrite Hstep. destruct (step None ev st) as [st' stop].
      destruct stop; [reflexivity|apply IH]. }
  assert (Hrun : forall events,
             extract_articles events (Some 0) = extract_articles events None).
  { intros [|root events]; cbn [extract_articles].
    - reflexivity.
    - rewrite Hloop. reflexivity. }
  split; [exact Hrun|]. split.
  - intros root events. rewrite eligible_uncapped, <- Hloop.
    eexists. split; reflexivity.
  - eexists. split; [reflexivity|]. vm_compute. split; reflexivity.
Qed.

(** The iteration does not depend on the cap unless it stops the loop. *)
Lemma end_page_no_stop max_articles st :
  snd (end_page max_articles st) = false ->
  end_page max_articles st = end_page None st.
Proof.
  unfold end_page.
  destruct (current_title st) as [title|]; [|reflexivity].
  destruct (current_text st) as [body|]; [|reflexivity].
  destruct (nonempty title && nonempty body); [|reflexivity].
  destruct (negb (startswith_any title special_prefixes)); [|reflexivity].
  destruct (Z.of_nat (String.length (clean_text body)) >? 100); [|reflexivity].
  destruct (cap_reached max_articles (article_count st + 1)); cbn.
  - discriminate.
  - reflexivity.
Qed.

Lemma step_no_stop max_articles ev st :
  snd (step max_articles ev st) = false ->
  step max_articles ev st = step None ev st.
Proof.
  destruct (is_end_page ev) eqn:Hev.
  - rewrite !(step_end_page _ _ _ Hev). apply end_page_no_stop.
  - intros _. destruct ev as [kind elem]. unfold is_end_page, is_page in Hev.
    cbn [fst snd] in Hev. unfold step. destruct kind; [reflexivity|].
    rewrite Hev. reflexivity.
Qed.

(** The output only grows. *)
Lemma loop_out_extends max_articles evs : forall st,
  exists l, out (loop max_articles evs st) = (out st ++ l)%list.
Proof.
  induction evs as [|ev evs IH]; intros st; cbn [loop].
  - exists []. rewrite app_nil_r. reflexivity.
  - pose proof (step_spec max_articles ev st) as H.
    destruct (step max_articles ev st) as [st' stop].
    assert (H' : exists l, out st' = (out st ++ l)%list).
    { destruct H as [(Ho & _)|(title & body & _ & _ & Ho & _)].
      - exists []. rewrite app_nil_r. exact Ho.
      - eexists. exact Ho. }
    destruct H' as [l1 Hl1]. destruct stop.
    + exists l1. exact Hl1.
    + destruct (IH st') as [l2 Hl2]. exists (l1 ++ l2)%list.
      rewrite Hl2, Hl1, app_assoc. reflexivity.
Qed.

Lemma step_writes max_articles ev st :
  out (fst (step max_articles ev st))
  = (if writes ev st then out st ++ [record_of st] else out st)%list
  /\ article_count (fst (step max_articles ev st))
     = (if writes ev st then article_count st + 1 else article_count st)
  /\ snd (step max_articles ev st)
     = writes ev st && cap_reached max_articles (article_count st + 1).
Proof.
  unfold writes. destruct (is_end_page ev) eqn:Hev; cbn [andb].
  - rewrite (step_end_page _ _ _ Hev). destruct (accepted st) eqn:Hacc.
    + destruct (end_page_accepted max_articles st Hacc)
        as (title & body & Ht & Hb & H).
      unfold record_of. rewrite Ht, Hb.
      destruct (end_page max_articles st) as [st' stop]; cbn [fst snd].
      tauto.
    + pose proof (end_page_rejected max_articles st Hacc) as H.
      destruct (end_page max_articles st) as [st' stop]; cbn [fst snd].
      tauto.
  - pose proof (step_not_end_page max_articles ev st Hev) as H.
    destruct (step max_articles ev st) as [st' stop]; cbn [fst snd]. tauto.
Qed.


(** [eligible] on a dump of well-formed pages: the pages whose title and
    text pass both filters, in the order of the dump. *)
Lemma candidates_page (title body : string) (rest : list event) :
  forall (inside : bool) (t b : option string),
    candidates inside t b (page_events export_ns title body ++ rest)
    = (Some title, Some body)
      :: candidates false (Some title) (Some body) rest.
Proof.
  intros inside t b. reflexivity.
Qed.

Lemma candidates_document (pages : list (string * string)) :
  forall (inside : bool) (t b : option string),
    map record_for
      (filter passes
         (candidates inside t b
            (flat_map (fun p => page_events export_ns (fst p) (snd p)) pages
             ++ [end_ev (export_ns ++ "mediawiki") None])))
    = map (fun p => (fst p, clean_text (snd p)))
          (filter (fun p => passes (Some (fst p), Some (snd p))) pages).
Proof.
  induction pages as [|[title body] pages IH]; intros inside t b.
  - reflexivity.
  - cbn [flat_map fst snd]. rewrite <- app_assoc, candidates_page.
    cbn [filter fst snd].
    destruct (passes (Some title, Some body)); cbn [map fst snd record_for];
      rewrite IH; reflexivity.
Qed.

Lemma eligible_document (pages : list (string * string)) :
  eligible (document export_ns pages)
  = map (fun p => (fst p, clean_text (snd p)))
        (filter (fun p => passes (Some (fst p), Some (snd p))) pages).
Proof.
  unfold eligible, document. apply candidates_document.
Qed.

(** The sample with five pages is such a dump. *)
Example five_pages_document :
  five_pages
  = document export_ns
      [("One", replicate 101 "a"); ("Two", replicate 120 "b");
       ("Three", replicate 130 "c"); ("Four", replicate 140 "d");
       ("Five", replicate 150 "e")].
Proof. reflexivity. Qed.




(** The case the spec names: five eligible pages and a cap of 2. *)
Example five_pages_cap_two :
  map fst (eligible five_pages) = ["One"; "Two"; "Three"; "Four"; "Five"]
  /\ exists st,
       extract_articles five_pages (Some 2) = Some st
       /\ map fst (out st) = ["One"; "Two"]
       /\ article_count st = 2
       /\ console st = [Summary 2 221]
       /\ file_contents st
          = "One" ++ String newline (replicate 101 "a")
            ++ String newline (String newline "Two")
            ++ String newline (replicate 120 "b")
            ++ String newline (String newline "").
Proof.
  split; [vm_compute; reflexivity|].
  eexists. split; [reflexivity|]. vm_compute. repeat split.
Qed.

(** * Further properties *)

Local Close Scope Z_scope.
Local Close Scope string_scope.

(** ** What a match consumes and captures *)

Lemma rep_greedy_sound p k : forall s prev res,
  rep_greedy p k prev s = Some res ->
  exists pv m s', s = m ++ s' /\ k pv s' = Some res.
Proof.
  induction s as [|c s IH]; intros prev res H; cbn [rep_greedy] in H.
  - exists prev, [], []. split; [reflexivity|exact H].
  - destruct (p c).
    + destruct (rep_greedy p k (Some c) s) as [r|] eqn:E.
      * injection H as <-. destruct (IH _ _ E) as (pv & m & s' & -> & Hk).
        exists pv, (c :: m), s'. split; [reflexivity|exact Hk].
      * exists prev, [], (c :: s). split; [reflexivity|exact H].
    + exists prev, [], (c :: s). split; [reflexivity|exact H].
Qed.

Lemma rep_lazy_sound p k : forall s prev res,
  rep_lazy p k prev s = Some res ->
  exists pv m s', s = m ++ s' /\ k pv s' = Some res.
Proof.
  induction s as [|c s IH]; intros prev res H; cbn [rep_lazy] in H.
  - destruct (k prev []) eqn:E; [|discriminate].
    injection H as <-. exists prev, [], []. split; [reflexivity|exact E].
  - destruct (k prev (c :: s)) eqn:E.
    + injection H as <-. exists prev, [], (c :: s). split; [reflexivity|exact E].
    + destruct (p c); [|discriminate].
      destruct (IH _ _ H) as (pv & m & s' & -> & Hk).
      exists pv, (c :: m), s'. split; [reflexivity|exact Hk].
Qed.

(** A successful match of [r] hands the continuation a suffix of the input;
    what lies before it is at least [min_len r] long, and each group closed
    on the way captured a piece of it. *)
Lemma rmatch_sound r : forall k prev s cs res,
  rmatch r k prev s cs = Some res ->
  exists pv m s' cs',
    s = m ++ s' /\ min_len r <= length m /\ k pv s' cs' = Some res
    /\ (forall n, caps_within n cs -> length m <= n -> caps_within n cs').
Proof.
  induction r as [|p|g p|r IH|r1 IH1 r2 IH2|n r IH| |];
    intros k prev s cs res H; cbn [rmatch min_len] in *.
  - exists prev, [], s, cs. repeat split; auto.
  - destruct s as [|c s]; [discriminate|].
    destruct (p c); [|discriminate].
    exists (Some c), [c], s, cs. repeat split; auto.
  - assert (Hs : exists pv m s', s = m ++ s' /\ k pv s' cs = Some res).
    { destruct g; [apply rep_greedy_sound in H|apply rep_lazy_sound in H];
        exact H. }
    destruct Hs as (pv & m & s' & -> & Hk).
    exists pv, m, s', cs. repeat split; auto. lia.
  - destruct (rmatch r k prev s cs) as [x|] eqn:E.
    + injection H as <-. destruct (IH _ _ _ _ _ E) as (pv & m & s' & cs' & ? & ? & ? & ?).
      exists pv, m, s', cs'. repeat split; auto. lia.
    + exists prev, [], s, cs. repeat split; auto.
  - destruct (IH1 _ _ _ _ _ H) as (pv1 & m1 & s1 & cs1 & -> & Hl1 & H1 & Hc1).
    destruct (IH2 _ _ _ _ _ H1) as (pv2 & m2 & s2 & cs2 & -> & Hl2 & H2 & Hc2).
    exists pv2, (m1 ++ m2), s2, cs2. rewrite length_app, <- app_assoc.
    repeat split; auto; [lia|].
    intros n0 Hcs Hn. apply Hc2; [apply Hc1; [exact Hcs|lia]|lia].
  - destruct (IH _ _ _ _ _ H) as (pv & m & s' & cs' & -> & Hl & Hk & Hc).
    exists pv, m, s', ((n, firstn (length (m ++ s') - length s') (m ++ s')) :: cs').
    repeat split; auto.
    intros n0 Hcs Hn. constructor; [|apply Hc; assumption].
    cbn [snd]. rewrite length_app.
    replace (length m + length s' - length s') with (length m + 0) by lia.
    rewrite firstn_app_2. cbn [firstn]. rewrite app_nil_r. exact Hn.
  - destruct (at_bol prev); [|discriminate].
    exists prev, [], s, cs. repeat split; auto.
  - destruct (at_eol s); [|discriminate].
    exists prev, [], s, cs. repeat split; auto.
Qed.

Lemma match_at_sound r b prev s rest cs :
  match_at r b prev s = Some (rest, cs) ->
  exists m, s = m ++ rest /\ min_len r <= length m
            /\ caps_within (length m) cs
            /\ (b = true -> m <> []).
Proof.
  unfold match_at. intros H.
  destruct (rmatch_sound r _ _ _ _ _ H) as (pv & m & s' & cs' & -> & Hl & Hk & Hc).
  unfold accept in Hk.
  destruct (b && Nat.eqb (length s') (length (m ++ s'))) eqn:E; [discriminate|].
  injection Hk as <- <-. exists m. repeat split; auto.
  - apply Hc; [constructor|lia].
  - intros -> ->. cbn [andb app] in E. rewrite Nat.eqb_refl in E. discriminate.
Qed.

Lemma group_within g n cs : caps_within n cs -> length (group g cs) <= n.
Proof.
  induction 1 as [|[m v] cs Hv _ IH]; cbn [group length].
  - lia.
  - destruct (Nat.eqb m g); [exact Hv|exact IH].
Qed.

Lemma expand_fits r t n cs :
  fits r t = true -> min_len r <= n -> caps_within n cs ->
  length (expand t cs) <= n.
Proof.
  unfold fits. intros Hf Hn Hcs.
  destruct t as [|[l|g] [|? ?]]; try discriminate; cbn [expand length].
  - lia.
  - rewrite app_nil_r. apply Nat.leb_le in Hf. lia.
  - rewrite app_nil_r. apply group_within, Hcs.
Qed.

(** [re.sub] with such a template never lengthens the text. *)
Lemma sub_from_length r t : fits r t = true ->
  forall s skip prev,
    skip <= length s ->
    length (sub_from r t skip prev s) + skip <= length s.
Proof.
  intros Hf. induction s as [|c s IH]; intros skip prev Hskip;
    cbn [sub_from length] in *.
  - destruct (match_at r false prev []) as [[rest cs]|] eqn:E; cbn [length]; [|lia].
    destruct (match_at_sound _ _ _ _ _ _ E) as (m & Hm & Hl & Hc & _).
    destruct m; [|discriminate].
    pose proof (expand_fits r t 0 cs Hf Hl Hc). lia.
  - destruct skip as [|n].
    + destruct (match_at r false prev (c :: s)) as [[rest cs]|] eqn:E.
      * destruct (match_at_sound _ _ _ _ _ _ E) as (m & Hm & Hl & Hc & _).
        pose proof (expand_fits r t _ cs Hf Hl Hc) as He.
        assert (Hlen : length (c :: s) = length m + length rest)
          by (rewrite Hm, length_app; reflexivity).
        cbn [length] in Hlen.
        replace (S (length s) - length rest) with (length m) by lia.
        destruct (length m) as [|n] eqn:En.
        -- rewrite length_app.
           destruct (match_at r true prev (c :: s)) as [[rest2 cs2]|] eqn:E2.
           ++ destruct (match_at_sound _ _ _ _ _ _ E2) as (m2 & Hm2 & Hl2 & Hc2 & Hne).
              pose proof (expand_fits r t _ cs2 Hf Hl2 Hc2) as He2.
              assert (Hlen2 : S (length s) = length m2 + length rest2).
              { change (S (length s)) with (length (c :: s)).
                rewrite Hm2, length_app. reflexivity. }
              assert (length m2 <> 0).
              { destruct m2; [exfalso; apply (Hne eq_refl); reflexivity|discriminate]. }
              rewrite length_app.
              pose proof (IH (S (length s) - length rest2 - 1) (Some c)
                            ltac:(lia)).
              lia.
           ++ cbn [length]. pose proof (IH 0 (Some c) ltac:(lia)). lia.
        -- rewrite length_app. pose proof (IH n (Some c) ltac:(lia)). lia.
      * cbn [length]. pose proof (IH 0 (Some c) ltac:(lia)). lia.
    + pose proof (IH n (Some c) ltac:(lia)). lia.
Qed.

Lemma sub_length r t s : fits r t = true -> length (sub r t s) <= length s.
Proof.
  intros Hf. unfold sub.
  pose proof (sub_from_length r t Hf s 0 None ltac:(lia)). lia.
Qed.
(** ** The whitespace rules *)

Lemma run_len_drop_run p : forall s,
  length s = run_len p s + length (drop_run p s).
Proof.
  induction s as [|c s IH]; cbn [run_len drop_run length].
  - reflexivity.
  - destruct (p c); cbn [length]; lia.
Qed.

Lemma rep_greedy_accept p (S0 : list ascii) cs : forall s prev,
  rep_greedy p (fun pv s' => accept false S0 pv s' cs) prev s
  = Some (drop_run p s, cs).
Proof.
  induction s as [|c s IH]; intros prev; cbn [rep_greedy drop_run].
  - reflexivity.
  - destruct (p c); [|reflexivity]. rewrite IH. reflexivity.
Qed.

Lemma spaces_match prev c s :
  match_at spaces_re false prev (c :: s)
  = if ch " " c then Some (drop_run (ch " ") s, []) else None.
Proof.
  unfold match_at, spaces_re, Plus. cbn [rmatch].
  destruct (ch " " c); [|reflexivity]. apply rep_greedy_accept.
Qed.

Lemma squeeze_spaces_scan : forall s,
  (forall prev, sub_from spaces_re [RLit [" "]] 0 prev s = squeeze_from false s)
  /\ (forall prev, sub_from spaces_re [RLit [" "]] (run_len (ch " ") s) prev s
                   = squeeze_from true s).
Proof.
  induction s as [|c s [IH1 IH2]].
  - split; intros prev; reflexivity.
  - assert (H1 : forall prev,
               sub_from spaces_re [RLit [" "]] 0 prev (c :: s)
               = squeeze_from false (c :: s)).
    { intros prev. cbn [sub_from squeeze_from]. rewrite spaces_match.
      rewrite andb_false_r. destruct (ch " " c) eqn:Hc.
      - replace (length (c :: s) - length (drop_run (ch " ") s))
          with (S (run_len (ch " ") s))
          by (cbn [length]; rewrite (run_len_drop_run (ch " ") s); lia).
        cbn [expand app]. rewrite IH2. apply ch_true in Hc. rewrite Hc.
        reflexivity.
      - rewrite IH1. reflexivity. }
    split; [exact H1|]. intros prev. cbn [run_len].
    destruct (ch " " c) eqn:Hc.
    + cbn [sub_from squeeze_from]. rewrite Hc, IH2. reflexivity.
    + rewrite H1. cbn [squeeze_from]. rewrite Hc. reflexivity.
Qed.

Lemma squeeze_spaces_spec s : squeeze_spaces s = squeeze_from false s.
Proof. apply squeeze_spaces_scan. Qed.

Lemma squeeze_from_no_double : forall s b,
  occurs [" "; " "] (squeeze_from b s) = false
  /\ (b = true -> starts_with [" "] (squeeze_from b s) = false).
Proof.
  induction s as [|c s IH]; intros b; cbn [squeeze_from].
  - split; reflexivity.
  - destruct (ch " " c && b) eqn:E.
    + apply andb_prop in E. destruct E as [_ ->]. apply IH.
    + destruct (IH (ch " " c)) as [IHo IHs]. split.
      * cbn [occurs starts_with]. rewrite IHo, orb_false_r.
        destruct (ch " " c) eqn:Hc; [|reflexivity].
        cbn [andb]. cbn [starts_with] in IHs.
        destruct (squeeze_from true s) as [|d r]; [reflexivity|].
        specialize (IHs eq_refl). rewrite andb_true_r in IHs |- *. exact IHs.
      * intros ->. rewrite andb_true_r in E. cbn [starts_with]. rewrite E.
        reflexivity.
Qed.

(** The blank-line rule. *)
Lemma blank_lines_match prev s :
  match_at blank_lines_re false prev s
  = if Nat.leb 2 (run_len (ch newline) s)
    then Some (drop_run (ch newline) s, [])
    else None.
Proof.
  unfold match_at, blank_lines_re, Plus. cbn [seq rmatch].
  destruct s as [|c1 s]; [reflexivity|]. cbn [run_len drop_run].
  destruct (ch newline c1); [|reflexivity].
  destruct s as [|c2 s]; [reflexivity|]. cbn [run_len drop_run].
  destruct (ch newline c2); [|reflexivity].
  cbn [Nat.leb]. apply rep_greedy_accept.
Qed.

Lemma squeeze_nl_other run : forall s,
  run_len (ch newline) s = 0 -> squeeze_nl run s = squeeze_nl 0 s.
Proof.
  intros [|c s]; cbn [run_len squeeze_nl]; [reflexivity|].
  destruct (ch newline c); [discriminate|reflexivity].
Qed.

Lemma squeeze_blank_lines_scan : forall s,
  (forall prev,
      sub_from blank_lines_re [RLit [newline; newline]] 0 prev s
      = squeeze_nl 0 s)
  /\ (forall prev,
        sub_from blank_lines_re [RLit [newline; newline]]
                 (run_len (ch newline) s) prev s
        = squeeze_nl 2 s).
Proof.
  induction s as [|c s [IH1 IH2]].
  - split; intros prev; reflexivity.
  - assert (H1 : forall prev,
               sub_from blank_lines_re [RLit [newline; newline]] 0 prev (c :: s)
               = squeeze_nl 0 (c :: s)).
    { intros prev. cbn [sub_from]. rewrite blank_lines_match.
      cbn [run_len drop_run squeeze_nl]. destruct (ch newline c) eqn:Hc.
      - apply ch_true in Hc. subst c. cbn [Nat.leb].
        destruct s as [|c2 s]; cbn [run_len drop_run squeeze_nl Nat.leb].
        + reflexivity.
        + destruct (ch newline c2) eqn:Hc2.
          * apply ch_true in Hc2. subst c2. cbn [Nat.leb].
            replace (length (newline :: newline :: s)
                     - length (drop_run (ch newline) s))
              with (S (S (run_len (ch newline) s)))
              by (cbn [length]; rewrite (run_len_drop_run (ch newline) s); lia).
            cbn [expand app].
            specialize (IH2 (Some newline)). cbn [run_len] in IH2.
            rewrite ch_refl in IH2. rewrite IH2.
            cbn [squeeze_nl]. rewrite ch_refl. reflexivity.
          * cbn [Nat.leb]. rewrite IH1. cbn [squeeze_nl]. rewrite Hc2.
            reflexivity.
      - cbn [Nat.leb]. rewrite IH1. reflexivity. }
    split; [exact H1|]. intros prev. cbn [run_len].
    destruct (ch newline c) eqn:Hc.
    + cbn [sub_from squeeze_nl]. rewrite Hc, IH2. reflexivity.
    + rewrite H1. cbn [squeeze_nl]. rewrite Hc. reflexivity.
Qed.

Lemma squeeze_blank_lines_spec s : squeeze_blank_lines s = squeeze_nl 0 s.
Proof. apply squeeze_blank_lines_scan. Qed.

Lemma squeeze_nl_no_triple : forall s run,
  run <= 2 ->
  occurs [newline; newline; newline] (squeeze_nl run s) = false
  /\ run_len (ch newline) (squeeze_nl run s) + run <= 2.
Proof.
  induction s as [|c s IH]; intros run Hrun; cbn [squeeze_nl].
  - split; [reflexivity|cbn; lia].
  - destruct (ch newline c) eqn:Hc.
    + destruct (Nat.leb 2 run) eqn:E.
      * apply IH, Hrun.
      * apply Nat.leb_gt in E. destruct (IH (S run) ltac:(lia)) as [IHo IHr].
        split.
        -- cbn [occurs starts_with]. rewrite IHo, orb_false_r, Hc. cbn [andb].
           destruct (squeeze_nl (S run) s) as [|d [|e r]]; cbn [starts_with];
             rewrite ?andb_false_r; try reflexivity.
           cbn [run_len] in IHr.
           destruct (ch newline d); [|reflexivity].
           destruct (ch newline e); [|reflexivity]. lia.
        -- cbn [run_len]. rewrite Hc. lia.
    + destruct (IH 0 ltac:(lia)) as [IHo _]. split.
      * cbn [occurs starts_with]. rewrite IHo, Hc. reflexivity.
      * cbn [run_len]. rewrite Hc. lia.
Qed.

Lemma starts_with_cons x p c s :
  starts_with (x :: p) (c :: s) = ch x c && starts_with p s.
Proof. reflexivity. Qed.

(** The space rule keeps runs of newlines apart. *)
Lemma squeeze_from_keeps_head q : forall s,
  starts_with (newline :: q) (squeeze_from false s) = true ->
  exists s', s = newline :: s'
             /\ starts_with q (squeeze_from false s') = true.
Proof.
  intros [|c s]; cbn [squeeze_from starts_with]; [discriminate|].
  rewrite andb_false_r. cbn [starts_with]. intros H.
  apply andb_prop in H. destruct H as [Hc Hq]. apply ch_true in Hc. subst c.
  exists s. split; [reflexivity|exact Hq].
Qed.

Lemma squeeze_from_no_triple : forall s b,
  occurs [newline; newline; newline] s = false ->
  occurs [newline; newline; newline] (squeeze_from b s) = false.
Proof.
  induction s as [|c s IH]; intros b H; cbn [squeeze_from].
  - reflexivity.
  - cbn [occurs] in H. apply orb_false_iff in H. destruct H as [Hs Ho].
    destruct (ch " " c && b); [apply IH, Ho|].
    cbn [occurs]. rewrite (IH _ Ho), orb_false_r.
    destruct (starts_with [newline; newline; newline]
                (c :: squeeze_from (ch " " c) s)) eqn:E; [|reflexivity].
    exfalso. rewrite starts_with_cons in E, Hs.
    apply andb_prop in E. destruct E as [Hc E].
    rewrite Hc in Hs. cbn [andb] in Hs.
    apply ch_true in Hc. subst c.
    change (ch " " newline) with false in E.
    destruct (squeeze_from_keeps_head _ _ E) as (s1 & -> & E1).
    destruct (squeeze_from_keeps_head _ _ E1) as (s2 & -> & _).
    rewrite !starts_with_cons, !ch_refl in Hs. discriminate.
Qed.

(** ** strip *)

Lemma lstrip_suffix : forall s, exists a, s = a ++ lstrip s.
Proof.
  induction s as [|c s [a IH]]; cbn [lstrip].
  - exists []. reflexivity.
  - destruct (isspace c).
    + exists (c :: a). cbn [app]. rewrite <- IH. reflexivity.
    + exists []. reflexivity.
Qed.

Lemma rstrip_prefix s : exists b, s = rstrip s ++ b.
Proof.
  unfold rstrip. destruct (lstrip_suffix (rev s)) as [a Ha].
  exists (rev a). rewrite <- rev_app_distr, <- Ha, rev_involutive. reflexivity.
Qed.

Lemma lstrip_hd : forall s, hd_space (lstrip s) = false.
Proof.
  induction s as [|c s IH]; cbn [lstrip hd_space].
  - reflexivity.
  - destruct (isspace c) eqn:E; [exact IH|]. cbn [hd_space]. exact E.
Qed.

Lemma strip_ends s :
  hd_space (strip s) = false /\ hd_space (rev (strip s)) = false.
Proof.
  unfold strip. split.
  - destruct (rstrip_prefix (lstrip s)) as [b Hb].
    pose proof (lstrip_hd s) as H. rewrite Hb in H.
    destruct (rstrip (lstrip s)); [reflexivity|exact H].
  - unfold rstrip. rewrite rev_involutive. apply lstrip_hd.
Qed.

Lemma strip_length s : length (strip s) <= length s.
Proof.
  unfold strip. destruct (rstrip_prefix (lstrip s)) as [b Hb].
  destruct (lstrip_suffix s) as [a Ha].
  apply (f_equal (@length _)) in Hb, Ha. rewrite length_app in Hb, Ha. lia.
Qed.

Lemma starts_with_app p : forall a b,
  starts_with p a = true -> starts_with p (a ++ b) = true.
Proof.
  induction p as [|x p IH]; intros a b H; [reflexivity|].
  destruct a as [|c a]; cbn [starts_with app] in *; [discriminate|].
  apply andb_prop in H. destruct H as [-> H]. cbn [andb]. apply IH, H.
Qed.

Lemma occurs_prefix p : forall a b,
  occurs p (a ++ b) = false -> occurs p a = false.
Proof.
  induction a as [|c a IH]; intros b H.
  - destruct p as [|x p]; [|reflexivity].
    destruct b; cbn in H; discriminate.
  - cbn [app occurs] in *. apply orb_false_iff in H. destruct H as [Hs Ho].
    rewrite (IH b Ho), orb_false_r.
    destruct (starts_with p (c :: a)) eqn:E; [|reflexivity].
    apply (starts_with_app p (c :: a) b) in E. cbn [app] in E. congruence.
Qed.

Lemma strip_occurs p s : occurs p s = false -> occurs p (strip s) = false.
Proof.
  intros H. unfold strip. destruct (rstrip_prefix (lstrip s)) as [b Hb].
  destruct (lstrip_suffix s) as [a Ha].
  rewrite Ha in H. apply occurs_suffix in H. rewrite Hb in H.
  apply occurs_prefix in H. exact H.
Qed.

Lemma chars_text_of l : chars (text_of l) = l.
Proof. apply list_ascii_of_string_of_list_ascii. Qed.

Lemma length_chars s : length (chars s) = String.length s.
Proof.
  induction s as [|c s IH]; cbn; [reflexivity|]. f_equal. exact IH.
Qed.

Lemma clean_text_chars text :
  chars (clean_text text) = [] \/
  chars (clean_text text) = clean_chars (chars text).
Proof.
  destruct text as [|c text]; [left; reflexivity|right].
  cbn [clean_text]. apply chars_text_of.
Qed.

Local Open Scope string_scope.

Lemma clean_text_length_le (text : string) :
  (String.length (clean_text text) <= String.length text)%nat.
Proof.
  rewrite <- !length_chars.
  destruct (clean_text_chars text) as [-> | ->]; [cbn; lia|].
  unfold clean_chars.
  set (t0 := chars text).
  pose proof (sub_length templates_re [] t0 eq_refl).
  fold (strip_templates t0) in *. set (t1 := strip_templates t0) in *.
  pose proof (sub_length links_re [RGrp 2] t1 eq_refl).
  fold (unwrap_links t1) in *. set (t2 := unwrap_links t1) in *.
  pose proof (sub_length ref_pair_re [] t2 eq_refl).
  fold (strip_ref_pairs t2) in *. set (t3 := strip_ref_pairs t2) in *.
  pose proof (sub_length ref_self_re [] t3 eq_refl).
  fold (strip_ref_self t3) in *. set (t4 := strip_ref_self t3) in *.
  pose proof (sub_length tag_re [] t4 eq_refl).
  fold (strip_tags t4) in *. set (t5 := strip_tags t4) in *.
  pose proof (sub_length bold_re [] t5 eq_refl).
  fold (strip_bold t5) in *. set (t6 := strip_bold t5) in *.
  pose proof (sub_length italic_re [] t6 eq_refl).
  fold (strip_italic t6) in *. set (t7 := strip_italic t6) in *.
  pose proof (sub_length list_re [] t7 eq_refl).
  fold (strip_list_markers t7) in *. set (t8 := strip_list_markers t7) in *.
  pose proof (sub_length header_re [RGrp 1] t8 eq_refl).
  fold (unwrap_headers t8) in *. set (t9 := unwrap_headers t8) in *.
  pose proof (sub_length url_re [] t9 eq_refl).
  fold (strip_urls t9) in *. set (t10 := strip_urls t9) in *.
  pose proof (sub_length blank_lines_re [RLit [newline; newline]] t10 eq_refl).
  fold (squeeze_blank_lines t10) in *. set (t11 := squeeze_blank_lines t10) in *.
  pose proof (sub_length spaces_re [RLit [" "%char]] t11 eq_refl).
  fold (squeeze_spaces t11) in *. set (t12 := squeeze_spaces t11) in *.
  pose proof (strip_length t12). lia.
Qed.

(** X1: [clean_text] never lengthens its input: every rule deletes text,
    keeps one group of its match, or puts a literal no longer than the
    shortest match. *)
Theorem clean_text_never_longer :
  forall text : string,
    (String.length (clean_text text) <= String.length text)%nat.
Proof. exact clean_text_length_le. Qed.

(** X2: the result of [clean_text] neither begins nor ends with a
    whitespace character. *)
Theorem clean_text_stripped :
  forall text : string,
    hd_space (chars (clean_text text)) = false
    /\ hd_space (rev (chars (clean_text text))) = false.
Proof.
  intros text. destruct (clean_text_chars text) as [-> | ->].
  - split; reflexivity.
  - unfold clean_chars. apply strip_ends.
Qed.

(** X3: the result of [clean_text] has no two spaces in a row. *)
Theorem clean_text_single_spaces :
  forall text : string,
    occurs (chars "  ") (chars (clean_text text)) = false.
Proof.
  intros text. destruct (clean_text_chars text) as [-> | ->]; [reflexivity|].
  unfold clean_chars. apply strip_occurs. rewrite squeeze_spaces_spec.
  apply squeeze_from_no_double.
Qed.

(** X4: the result of [clean_text] has no three newlines in a row: at most
    one blank line separates two lines. *)
Theorem clean_text_one_blank_line :
  forall text : string,
    occurs [newline; newline; newline] (chars (clean_text text)) = false.
Proof.
  intros text. destruct (clean_text_chars text) as [-> | ->]; [reflexivity|].
  unfold clean_chars. apply strip_occurs. rewrite squeeze_spaces_spec.
  apply squeeze_from_no_triple. rewrite squeeze_blank_lines_spec.
  apply squeeze_nl_no_triple. lia.
Qed.

Local Close Scope Z_scope.
Local Close Scope string_scope.

(** ** The tag rule *)

Lemma tag_body_spec (S0 : list ascii) : forall s prev,
  rep_greedy (not_ch ">")
    (fun pv s' => rmatch (seq [Chr (ch ">")]) (accept false S0) pv s' [])
    prev s
  = match drop_run (not_ch ">") s with
    | _ :: rest => Some (rest, [])
    | [] => None
    end.
Proof.
  induction s as [|c s IH]; intros prev; cbn [rep_greedy drop_run].
  - reflexivity.
  - destruct (not_ch ">" c) eqn:Hc.
    + rewrite IH. destruct (drop_run (not_ch ">") s); [|reflexivity].
      cbn [seq rmatch]. unfold not_ch in Hc. apply negb_true_iff in Hc.
      unfold ch. rewrite Hc. reflexivity.
    + cbn [seq rmatch]. unfold not_ch in Hc. apply negb_false_iff in Hc.
      unfold ch. rewrite Hc. reflexivity.
Qed.

Lemma drop_run_not_gt : forall s,
  match drop_run (not_ch ">") s with
  | _ :: _ => existsb (ch ">") s = true
  | [] => existsb (ch ">") s = false
  end.
Proof.
  induction s as [|c s IH]; cbn [drop_run existsb]; [reflexivity|].
  unfold not_ch, ch in *. destruct (Ascii.eqb c ">"); cbn [negb orb].
  - reflexivity.
  - exact IH.
Qed.

Lemma tag_match_spec prev s :
  match match_at tag_re false prev s with
  | Some _ => tag_here s = true
  | None => tag_here s = false
  end.
Proof.
  unfold match_at, tag_re, Plus. rewrite rmatch_seq_cons. cbn [rmatch].
  destruct s as [|c0 s]; [reflexivity|]. cbn [tag_here].
  destruct (ch "<" c0); [|destruct s; reflexivity].
  rewrite rmatch_seq_cons. cbn [rmatch].
  destruct s as [|c1 s]; [reflexivity|].
  destruct (not_ch ">" c1); [|reflexivity]. cbn [andb].
  rewrite tag_body_spec. pose proof (drop_run_not_gt s) as H.
  destruct (drop_run (not_ch ">") s); exact H.
Qed.

Lemma tag_no_match prev s :
  tag_here s = false -> match_at tag_re false prev s = None.
Proof.
  intros H. pose proof (tag_match_spec prev s) as Hm.
  destruct (match_at tag_re false prev s); [congruence|reflexivity].
Qed.

(** A text in which no match begins is left as it is. *)
Lemma sub_from_fixed r t : forall s prev,
  (forall a b pv, s = a ++ b -> match_at r false pv b = None) ->
  sub_from r t 0 prev s = s.
Proof.
  intros s prev Hno.
  rewrite <- (app_nil_r s) at 1. rewrite sub_from_copy.
  - cbn [sub_from]. rewrite (Hno s [] _ (eq_sym (app_nil_r s))).
    apply app_nil_r.
  - intros a b pv Hs _. rewrite app_nil_r. apply (Hno a b pv Hs).
Qed.

Lemma has_tag_suffix : forall a b, has_tag (a ++ b) = false -> tag_here b = false.
Proof.
  induction a as [|c a IH]; intros b H; cbn [app] in H.
  - destruct b; cbn [has_tag] in H; apply orb_false_iff in H; apply H.
  - cbn [has_tag] in H. apply orb_false_iff in H. apply IH, H.
Qed.

Lemma strip_tags_fixed s : has_tag s = false -> strip_tags s = s.
Proof.
  intros H. unfold strip_tags, sub. apply sub_from_fixed.
  intros a b pv ->. apply tag_no_match, (has_tag_suffix a b H).
Qed.

Lemma no_gt_no_tag : forall s, existsb (ch ">") s = false -> has_tag s = false.
Proof.
  induction s as [|c s IH]; intros H; [reflexivity|].
  cbn [existsb] in H. apply orb_false_iff in H. destruct H as [Hc Hs].
  cbn [has_tag]. rewrite (IH Hs), orb_false_r. cbn [tag_here].
  destruct s as [|c1 s]; [reflexivity|].
  cbn [existsb] in Hs. apply orb_false_iff in Hs. destruct Hs as [_ Hs].
  rewrite Hs, andb_false_r. reflexivity.
Qed.

(** One step of [re.sub] for a pattern that cannot match the empty string. *)
Lemma sub_from_step r t prev c s :
  0 < min_len r ->
  sub_from r t 0 prev (c :: s)
  = match match_at r false prev (c :: s) with
    | Some (rest, cs) =>
        expand t cs ++ sub_from r t (length s - length rest) (Some c) s
    | None => c :: sub_from r t 0 (Some c) s
    end.
Proof.
  intros Hpos. cbn [sub_from].
  destruct (match_at r false prev (c :: s)) as [[rest cs]|] eqn:E;
    [|reflexivity].
  destruct (match_at_sound _ _ _ _ _ _ E) as (m & Hm & Hl & _ & _).
  apply (f_equal (@length _)) in Hm. rewrite length_app in Hm.
  cbn [length] in Hm.
  replace (length (c :: s) - length rest) with (S (length s - length rest))
    by (cbn [length]; lia).
  reflexivity.
Qed.

Lemma strip_tags_no_tag : forall s skip prev,
  has_tag (sub_from tag_re [] skip prev s) = false.
Proof.
  induction s as [|c s IH]; intros skip prev.
  - reflexivity.
  - destruct skip as [|n]; [|apply IH].
    rewrite sub_from_step by (cbn; lia).
    pose proof (tag_match_spec prev (c :: s)) as Hm.
    destruct (match_at tag_re false prev (c :: s)) as [[rest cs]|];
      [apply IH|].
    cbn [has_tag]. rewrite IH, orb_false_r.
    cbn [tag_here] in Hm |- *.
    destruct (ch "<" c) eqn:Hc;
      [|destruct (sub_from tag_re [] 0 (Some c) s) as [|? ?]; reflexivity].
    cbn [andb] in Hm.
    destruct s as [|c1 s]; [reflexivity|].
    destruct (not_ch ">" c1) eqn:Hc1; cbn [andb] in Hm.
    + assert (Hng : existsb (ch ">") (c1 :: s) = false).
      { cbn [existsb]. unfold not_ch in Hc1. apply negb_true_iff in Hc1.
        unfold ch at 1. rewrite Hc1. exact Hm. }
      pose proof (strip_tags_fixed _ (no_gt_no_tag _ Hng)) as Hfix.
      unfold strip_tags, sub in Hfix.
      rewrite (sub_from_prev tag_re [] 0 (Some c) None (c1 :: s) eq_refl), Hfix.
      rewrite Hc1, Hm. reflexivity.
    + rewrite sub_from_step by (cbn; lia).
      rewrite (tag_no_match (Some c) (c1 :: s)).
      * rewrite Hc1. reflexivity.
      * cbn [tag_here]. destruct s; [reflexivity|].
        unfold not_ch in Hc1. apply negb_false_iff in Hc1.
        apply Ascii.eqb_eq in Hc1. subst c1. reflexivity.
Qed.

(** X5: after the tag rule no complete tag is left, that is no "<" followed
    by a character other than ">" and, further on, by a ">"; so the rule
    changes nothing when it is applied a second time. *)
Theorem strip_tags_leaves_no_tag :
  forall s : list ascii,
    has_tag (strip_tags s) = false
    /\ strip_tags (strip_tags s) = strip_tags s.
Proof.
  intros s.
  assert (H : has_tag (strip_tags s) = false) by apply strip_tags_no_tag.
  split; [exact H|apply strip_tags_fixed, H].
Qed.

(** ** The emphasis rules *)

Lemma italic_match_spec prev s :
  match_at italic_re false prev s
  = if starts_with ["'"; "'"] s then Some (skipn 2 s, []) else None.
Proof.
  unfold match_at, italic_re. cbn [lit chars list_ascii_of_string rmatch].
  destruct s as [|c0 s]; [reflexivity|]. rewrite starts_with_cons.
  destruct (ch "'" c0); [|reflexivity].
  destruct s as [|c1 s]; [reflexivity|]. rewrite starts_with_cons.
  destruct (ch "'" c1); reflexivity.
Qed.

Lemma strip_italic_no_pair : forall s skip prev,
  occurs ["'"; "'"] (sub_from italic_re [] skip prev s) = false.
Proof.
  induction s as [|c s IH]; intros skip prev.
  - reflexivity.
  - destruct skip as [|n]; [|apply IH].
    rewrite sub_from_step by (cbn; lia). rewrite italic_match_spec.
    destruct (starts_with ["'"; "'"] (c :: s)) eqn:E; [apply IH|].
    cbn [occurs]. rewrite IH, orb_false_r.
    rewrite starts_with_cons in E |- *.
    destruct (ch "'" c); [|reflexivity]. cbn [andb] in E |- *.
    destruct s as [|c1 s]; [reflexivity|].
    rewrite starts_with_cons in E. cbn [starts_with] in E.
    rewrite andb_true_r in E.
    rewrite sub_from_step by (cbn; lia). rewrite italic_match_spec.
    rewrite starts_with_cons, E. cbn [andb].
    rewrite starts_with_cons, E. reflexivity.
Qed.

(** X6: after the two emphasis rules no two apostrophes stand side by side,
    whatever the text was. *)
Theorem emphasis_markers_removed :
  forall s : list ascii,
    occurs ["'"; "'"] (strip_italic (strip_bold s)) = false.
Proof. intros s. apply strip_italic_no_pair. Qed.

(** ** The list rule *)

Lemma list_match_spec prev c s :
  match_at list_re false prev (c :: s)
  = if at_bol prev && marker c
    then Some (drop_run marker s, [])
    else None.
Proof.
  unfold match_at, list_re, Plus. rewrite rmatch_seq_cons. cbn [rmatch].
  destruct (at_bol prev); [|reflexivity]. cbn [andb].
  rewrite rmatch_seq_cons. cbn [rmatch]. fold marker.
  destruct (marker c); [|reflexivity].
  cbn [seq rmatch]. apply rep_greedy_accept.
Qed.

Lemma strip_list_markers_scan : forall s,
  (forall prev, sub_from list_re [] 0 prev s = strip_lm (at_bol prev) s)
  /\ (forall prev, sub_from list_re [] (run_len marker s) prev s
                   = strip_lm true s).
Proof.
  induction s as [|c s [IH1 IH2]].
  - split; intros prev; cbn [sub_from strip_lm run_len];
      unfold match_at, list_re, Plus; cbn; destruct (at_bol prev); reflexivity.
  - assert (H1 : forall prev,
               sub_from list_re [] 0 prev (c :: s)
               = strip_lm (at_bol prev) (c :: s)).
    { intros prev. rewrite sub_from_step by (cbn; lia).
      rewrite list_match_spec. cbn [strip_lm].
      destruct (at_bol prev && marker c).
      - replace (length s - length (drop_run marker s))
          with (run_len marker s)
          by (rewrite (run_len_drop_run marker s); lia).
        cbn [expand app]. apply IH2.
      - rewrite IH1. reflexivity. }
    split; [exact H1|]. intros prev. cbn [run_len].
    destruct (marker c) eqn:Hc.
    + cbn [sub_from strip_lm]. rewrite Hc, IH2. reflexivity.
    + rewrite H1. cbn [strip_lm]. rewrite Hc, !andb_false_r. reflexivity.
Qed.

Lemma strip_lm_clean : forall s b, marker_at_bol b (strip_lm b s) = false.
Proof.
  induction s as [|c s IH]; intros b; cbn [strip_lm].
  - reflexivity.
  - destruct (b && marker c) eqn:E.
    + apply andb_prop in E. destruct E as [-> _]. apply IH.
    + cbn [marker_at_bol]. rewrite E, IH. reflexivity.
Qed.

Lemma strip_lm_fixed : forall s b, marker_at_bol b s = false -> strip_lm b s = s.
Proof.
  induction s as [|c s IH]; intros b H; cbn [strip_lm].
  - reflexivity.
  - cbn [marker_at_bol] in H. apply orb_false_iff in H. destruct H as [-> H].
    rewrite (IH _ H). reflexivity.
Qed.

(** X7: after the list rule no line begins with one of the characters
    [*], [#], [:] and [;]: neither the text nor any character after a
    newline; the rule is the scan [strip_lm], and a second application
    changes nothing. *)
Theorem list_markers_removed :
  forall s : list ascii,
    strip_list_markers s = strip_lm true s
    /\ marker_at_bol true (strip_list_markers s) = false
    /\ strip_list_markers (strip_list_markers s) = strip_list_markers s.
Proof.
  intros s.
  assert (H : forall x, strip_list_markers x = strip_lm true x).
  { intros x. unfold strip_list_markers, sub.
    destruct (strip_list_markers_scan x) as [H _]. apply (H None). }
  split; [apply H|]. rewrite !H. split.
  - apply strip_lm_clean.
  - apply strip_lm_fixed, strip_lm_clean.
Qed.

(** ** Literal markers and the reference rules *)

Lemma lit_match l k : forall prev s cs,
  rmatch (lit l) k prev (l ++ s) cs = k (prev_after l prev) s cs.
Proof.
  induction l as [|c l IH]; intros prev s cs; cbn [lit rmatch app].
  - reflexivity.
  - rewrite ch_refl. apply IH.
Qed.

Lemma lit_no_match l k : forall prev s cs,
  starts_with l s = false -> rmatch (lit l) k prev s cs = None.
Proof.
  induction l as [|c l IH]; intros prev s cs H; cbn [lit rmatch].
  - discriminate.
  - destruct s as [|d s]; [reflexivity|]. rewrite starts_with_cons in H.
    destruct (ch c d); [|reflexivity]. apply IH, H.
Qed.

Lemma starts_with_firstn p : forall s,
  starts_with p (firstn (length p) s) = starts_with p s.
Proof.
  induction p as [|x p IH]; intros s; [reflexivity|].
  destruct s as [|c s]; [reflexivity|]. cbn [length firstn].
  rewrite !starts_with_cons, IH. reflexivity.
Qed.

Lemma firstn_app_firstn (A : Type) (x : list A) m : forall b n,
  n <= m -> firstn n (b ++ x) = firstn n (b ++ firstn m x).
Proof.
  induction b as [|d b IH]; intros n Hn; cbn [app].
  - rewrite firstn_firstn. f_equal. lia.
  - destruct n; [reflexivity|]. cbn [firstn]. f_equal. apply IH. lia.
Qed.

Lemma firstn_app_short (A : Type) (b x : list A) n :
  b <> [] -> firstn (S n) (b ++ x) = firstn (S n) (b ++ firstn n x).
Proof.
  intros Hb. destruct b as [|c b]; [contradiction|].
  cbn [app firstn]. f_equal. apply firstn_app_firstn. lia.
Qed.

(** When no occurrence of a marker begins in [pre], not even one that runs
    into the text after it, the marker begins at no position of [pre]. *)
Lemma no_start_before p pre m a b :
  occurs p (pre ++ firstn (length p - 1) m) = false ->
  pre = a ++ b -> b <> [] ->
  starts_with p (b ++ m) = false.
Proof.
  intros Ho -> Hb. rewrite <- app_assoc in Ho.
  apply occurs_suffix, occurs_here in Ho.
  destruct p as [|x p]; [destruct b; [contradiction|discriminate]|].
  replace (length (x :: p) - 1) with (length p) in Ho
    by (cbn [length]; lia).
  rewrite <- starts_with_firstn. cbn [length].
  rewrite (firstn_app_short _ b m (length p) Hb).
  change (S (length p)) with (length (x :: p)).
  rewrite starts_with_firstn. exact Ho.
Qed.

(** A lazy repetition stops at the first place where the continuation
    succeeds. *)
Lemma rep_lazy_run p k : forall body prev rest r,
  Forall (fun c => p c = true) body ->
  (forall pv a b, body = a ++ b -> b <> [] -> k pv (b ++ rest) = None) ->
  (forall pv, k pv rest = Some r) ->
  rep_lazy p k prev (body ++ rest) = Some r.
Proof.
  induction body as [|c body IH]; intros prev rest r Hall Hno Hk.
  - cbn [app]. destruct rest; cbn [rep_lazy]; rewrite Hk; reflexivity.
  - inversion Hall as [|? ? Hc Hb]; subst. cbn [app rep_lazy].
    pose proof (Hno prev [] (c :: body) eq_refl ltac:(discriminate)) as H0.
    cbn [app] in H0. rewrite H0, Hc. apply IH; [exact Hb| |exact Hk].
    intros pv a b -> Hne. apply (Hno pv (c :: a) b); [reflexivity|exact Hne].
Qed.

(** A greedy repetition that took one character too many gives it back. *)
Lemma rep_greedy_back p k x : forall body prev rest r,
  Forall (fun c => p c = true) body -> p x = true ->
  match rest with [] => True | c :: _ => p c = false end ->
  (forall pv, k pv rest = None) ->
  (forall pv, k pv (x :: rest) = Some r) ->
  rep_greedy p k prev (body ++ x :: rest) = Some r.
Proof.
  induction body as [|c body IH]; intros prev rest r Hall Hx Hstop Hno Hk.
  - cbn [app rep_greedy]. rewrite Hx.
    assert (E : rep_greedy p k (Some x) rest = None).
    { destruct rest as [|d rest]; cbn [rep_greedy]; [apply Hno|].
      rewrite Hstop. apply Hno. }
    rewrite E. apply Hk.
  - inversion Hall as [|? ? Hc Hb]; subst. cbn [app rep_greedy].
    rewrite Hc, (IH (Some c) rest r Hb Hx Hstop Hno Hk). reflexivity.
Qed.

Lemma all_any (l : list ascii) : Forall (fun c => any c = true) l.
Proof. induction l; constructor; [reflexivity|assumption]. Qed.

Lemma ref_pair_match prev attrs body post :
  Forall (fun c => c <> ">") attrs ->
  occurs (chars "</ref>") (body ++ chars "</ref") = false ->
  match_at ref_pair_re false prev
    (chars "<ref" ++ attrs ++ ">" :: body ++ chars "</ref>" ++ post)
  = Some (post, []).
Proof.
  intros Ha Hb. unfold match_at, ref_pair_re.
  rewrite rmatch_seq_cons, lit_match.
  rewrite rmatch_seq_cons. cbn [rmatch].
  apply rep_greedy_run.
  - eapply Forall_impl; [|exact Ha]. intros c Hc. apply not_ch_true, Hc.
  - apply not_ch_refl.
  - intros pv. rewrite rmatch_seq_cons. cbn [rmatch]. rewrite ch_refl.
    rewrite rmatch_seq_cons. cbn [rmatch].
    apply rep_lazy_run.
    + apply all_any.
    + intros pv' a b Hs Hne. rewrite rmatch_seq_cons. apply lit_no_match.
      apply (no_start_before (chars "</ref>") body
               (chars "</ref>" ++ post) a b Hb Hs Hne).
    + intros pv'. rewrite rmatch_seq_cons, lit_match. reflexivity.
Qed.

Lemma ref_pair_no_match pv s :
  starts_with (chars "<ref") s = false ->
  match_at ref_pair_re false pv s = None.
Proof.
  intros H. unfold match_at, ref_pair_re. rewrite rmatch_seq_cons.
  apply lit_no_match, H.
Qed.

Local Open Scope string_scope.

(** X8: the paired reference rule deletes everything from an opening marker
    "<ref", through the first ">" and on to the first "</ref>" after it,
    newlines included. The opening marker may be a self-closing
    "<ref .../>" or another tag whose name starts with "ref": the text
    between it and the next "</ref>" is deleted all the same. The span
    stands after text in which no "<ref" begins. *)
Theorem ref_pair_deletes_to_first_close :
  forall pre attrs body post : list ascii,
    occurs (chars "<ref") (pre ++ chars "<re") = false ->
    Forall (fun c => c <> ">"%char) attrs ->
    occurs (chars "</ref>") (body ++ chars "</ref") = false ->
    strip_ref_pairs
      (pre ++ chars "<ref" ++ attrs ++ chars ">" ++ body ++ chars "</ref>"
           ++ post)
    = (pre ++ strip_ref_pairs post)%list.
Proof.
  intros pre attrs body post Hpre Ha Hb. unfold strip_ref_pairs, sub.
  rewrite sub_from_copy.
  - f_equal.
    replace (chars "<ref" ++ attrs ++ chars ">" ++ body ++ chars "</ref>" ++ post)%list
      with ((chars "<ref" ++ attrs ++ chars ">" ++ body ++ chars "</ref>") ++ post)%list
      by (repeat (rewrite <- app_assoc; cbn [app chars list_ascii_of_string]);
          reflexivity).
    rewrite (sub_from_match ref_pair_re [] _ _ post []).
    + cbn [expand app]. apply sub_from_prev. reflexivity.
    + cbn. discriminate.
    + refine (eq_trans _ (ref_pair_match _ attrs body post Ha Hb)). f_equal.
      repeat (rewrite <- app_assoc; cbn [app chars list_ascii_of_string]).
      reflexivity.
  - intros a b pv Hs Hne. apply ref_pair_no_match.
    apply (no_start_before (chars "<ref") pre
             (chars "<ref" ++ attrs ++ chars ">" ++ body ++ chars "</ref>"
                ++ post)%list a b Hpre Hs Hne).
Qed.

Lemma ref_pair_deletes_to_first_close_witness :
  strip_ref_pairs
    (chars "a" ++ chars "<ref" ++ chars " name=x/" ++ chars ">"
       ++ chars ("kept?" ++ String newline "<ref>c") ++ chars "</ref>"
       ++ chars "d<ref>e</ref>")
  = (chars "a" ++ strip_ref_pairs (chars "d<ref>e</ref>"))%list.
Proof.
  apply (ref_pair_deletes_to_first_close (chars "a") (chars " name=x/")
           (chars ("kept?" ++ String newline "<ref>c"))
           (chars "d<ref>e</ref>")).
  - reflexivity.
  - repeat constructor; discriminate.
  - reflexivity.
Defined.

Local Close Scope string_scope.

Lemma ref_self_match prev attrs post :
  Forall (fun c => c <> ">") attrs ->
  match_at ref_self_re false prev (chars "<ref" ++ attrs ++ chars "/>" ++ post)
  = Some (post, []).
Proof.
  intros Ha. unfold match_at, ref_self_re.
  rewrite rmatch_seq_cons, lit_match.
  rewrite rmatch_seq_cons. cbn [rmatch].
  cbn [chars list_ascii_of_string app].
  apply (rep_greedy_back (not_ch ">") _ "/" attrs _ (">" :: post)).
  - eapply Forall_impl; [|exact Ha]. intros c Hc. apply not_ch_true, Hc.
  - reflexivity.
  - apply not_ch_refl.
  - intros pv. rewrite rmatch_seq_cons. apply lit_no_match. reflexivity.
  - intros pv. rewrite rmatch_seq_cons.
    change ("/" :: ">" :: post) with (chars "/>" ++ post).
    rewrite lit_match. reflexivity.
Qed.

Lemma ref_self_no_match pv s :
  starts_with (chars "<ref") s = false ->
  match_at ref_self_re false pv s = None.
Proof.
  intros H. unfold match_at, ref_self_re. rewrite rmatch_seq_cons.
  apply lit_no_match, H.
Qed.

Lemma url_tail_match (S0 : list ascii) pv tok post :
  tok <> [] ->
  Forall (fun c => isspace c = false) tok ->
  match post with [] => True | c :: _ => isspace c = true end ->
  rmatch (seq [lit (chars "://"); Plus true (fun c => negb (isspace c))])
         (accept false S0) pv (chars "://" ++ tok ++ post) []
  = Some (post, []).
Proof.
  intros Hne Htok Hpost. rewrite rmatch_seq_cons, lit_match.
  destruct tok as [|t0 tok]; [contradiction|].
  inversion Htok as [|? ? H0 Hrest]; subst.
  unfold Plus. rewrite rmatch_seq_cons. cbn [rmatch app]. rewrite H0.
  cbn [negb seq rmatch].
  apply rep_greedy_run.
  - eapply Forall_impl; [|exact Hrest]. intros c Hc. rewrite Hc. reflexivity.
  - destruct post as [|c post]; [exact I|]. rewrite Hpost. reflexivity.
  - intros pv'. reflexivity.
Qed.

Lemma url_match prev (secure : bool) tok post :
  tok <> [] ->
  Forall (fun c => isspace c = false) tok ->
  match post with [] => True | c :: _ => isspace c = true end ->
  match_at url_re false prev
    (chars "http" ++ (if secure then chars "s" else []) ++ chars "://"
       ++ tok ++ post)
  = Some (post, []).
Proof.
  intros Hne Htok Hpost. unfold match_at, url_re.
  rewrite rmatch_seq_cons, lit_match.
  rewrite rmatch_seq_cons. cbn [rmatch].
  destruct secure; cbn [app chars list_ascii_of_string].
  - rewrite ch_refl.
    change (":" :: "/" :: "/" :: tok ++ post) with (chars "://" ++ tok ++ post).
    rewrite url_tail_match by assumption. reflexivity.
  - change (ch "s" ":") with false. cbv iota.
    change (":" :: "/" :: "/" :: tok ++ post) with (chars "://" ++ tok ++ post).
    apply url_tail_match; assumption.
Qed.

Lemma url_no_match pv s :
  starts_with (chars "http") s = false -> match_at url_re false pv s = None.
Proof.
  intros H. unfold match_at, url_re. rewrite rmatch_seq_cons.
  apply lit_no_match, H.
Qed.

(** Deleting one match that begins with the literal [p], after text in
    which [p] does not begin. *)
Lemma sub_delete_span r p pre m post :
  uses_bol r = false ->
  (forall pv s, starts_with p s = false -> match_at r false pv s = None) ->
  occurs p (pre ++ firstn (length p - 1) (m ++ post)) = false ->
  m <> [] ->
  (forall prev, match_at r false prev (m ++ post) = Some (post, [])) ->
  sub r [] (pre ++ m ++ post) = pre ++ sub r [] post.
Proof.
  intros Hb Hno Hpre Hm Hmatch. unfold sub. rewrite sub_from_copy.
  - f_equal. rewrite (sub_from_match r [] _ m post [] Hm (Hmatch _)).
    cbn [expand app]. apply sub_from_prev, Hb.
  - intros a b pv Hs Hne. apply Hno.
    apply (no_start_before p pre (m ++ post) a b Hpre Hs Hne).
Qed.

Local Open Scope string_scope.

(** X9: the self-closing reference rule deletes a marker "<ref", any
    characters other than ">", and "/>", after text in which no "<ref"
    begins; the text after it is processed on its own. *)
Theorem ref_self_closing_deleted :
  forall pre attrs post : list ascii,
    occurs (chars "<ref") (pre ++ chars "<re") = false ->
    Forall (fun c => c <> ">"%char) attrs ->
    strip_ref_self (pre ++ (chars "<ref" ++ attrs ++ chars "/>") ++ post)
    = (pre ++ strip_ref_self post)%list.
Proof.
  intros pre attrs post Hpre Ha. unfold strip_ref_self.
  apply (sub_delete_span ref_self_re (chars "<ref")).
  - reflexivity.
  - apply ref_self_no_match.
  - exact Hpre.
  - cbn. discriminate.
  - intros prev.
    refine (eq_trans _ (ref_self_match prev attrs post Ha)). f_equal.
    repeat (rewrite <- app_assoc; cbn [app chars list_ascii_of_string]).
    reflexivity.
Qed.

Lemma ref_self_closing_deleted_witness :
  strip_ref_self (chars "a " ++ (chars "<ref" ++ chars " name=x " ++ chars "/>")
                    ++ chars " b<ref/>")
  = (chars "a " ++ strip_ref_self (chars " b<ref/>"))%list.
Proof.
  apply (ref_self_closing_deleted (chars "a ") (chars " name=x ")
           (chars " b<ref/>")).
  - reflexivity.
  - repeat constructor; discriminate.
Defined.

(** X10: the URL rule deletes "http://" or "https://" together with all the
    characters after it up to the next whitespace or the end of the text,
    punctuation and brackets included; there has to be at least one such
    character. The URL stands after text in which no "http" begins. *)
Theorem url_deleted_to_next_space :
  forall (pre tok post : list ascii) (secure : bool),
    occurs (chars "http") (pre ++ chars "htt") = false ->
    tok <> [] ->
    Forall (fun c => isspace c = false) tok ->
    hd_space post = true \/ post = [] ->
    strip_urls (pre ++ (chars (if secure then "https://" else "http://") ++ tok)
                    ++ post)
    = (pre ++ strip_urls post)%list.
Proof.
  intros pre tok post secure Hpre Hne Htok Hpost. unfold strip_urls.
  apply (sub_delete_span url_re (chars "http")).
  - reflexivity.
  - apply url_no_match.
  - destruct secure; exact Hpre.
  - destruct secure; cbn; discriminate.
  - intros prev.
    refine (eq_trans _ (url_match prev secure tok post Hne Htok _)).
    + f_equal. destruct secure;
        repeat (rewrite <- app_assoc; cbn [app chars list_ascii_of_string]);
        reflexivity.
    + destruct Hpost as [H| ->]; [|exact I].
      destruct post; [exact I|exact H].
Qed.

Lemma url_deleted_to_next_space_witness :
  strip_urls (chars "(see " ++ (chars (if true then "https://" else "http://")
                                 ++ chars "x.org/a?b=1).")
                ++ chars " next")
  = (chars "(see " ++ strip_urls (chars " next"))%list.
Proof.
  apply (url_deleted_to_next_space (chars "(see ") (chars "x.org/a?b=1).")
           (chars " next") true).
  - reflexivity.
  - discriminate.
  - repeat constructor.
  - left. reflexivity.
Defined.

Local Close Scope string_scope.

(** ** The heading rule *)

(** A match looks at the character before it only to tell whether it
    stands at the start of a line. *)
Lemma rmatch_bol r :
  forall k, (forall p1 p2 s cs, at_bol p1 = at_bol p2 -> k p1 s cs = k p2 s cs) ->
  forall p1 p2 s cs, at_bol p1 = at_bol p2 ->
    rmatch r k p1 s cs = rmatch r k p2 s cs.
Proof.
  induction r as [|p|g p|r IH|r1 IH1 r2 IH2|n r IH| |];
    intros k Hk p1 p2 s cs Hp; cbn [rmatch].
  - apply Hk, Hp.
  - reflexivity.
  - destruct g.
    + destruct s as [|c s]; cbn; [apply Hk, Hp|].
      rewrite (Hk p1 p2 _ _ Hp). reflexivity.
    + destruct s as [|c s]; cbn; rewrite (Hk p1 p2 _ _ Hp); reflexivity.
  - rewrite (IH k Hk p1 p2 s cs Hp), (Hk p1 p2 _ _ Hp). reflexivity.
  - apply IH1; [|exact Hp]. intros q1 q2 s' cs' Hq. apply IH2; assumption.
  - apply IH; [|exact Hp]. intros q1 q2 s' cs' Hq. apply Hk, Hq.
  - rewrite Hp, (Hk p1 p2 _ _ Hp). reflexivity.
  - rewrite (Hk p1 p2 _ _ Hp). reflexivity.
Qed.

Lemma sub_from_bol r t skip p1 p2 s : at_bol p1 = at_bol p2 ->
  sub_from r t skip p1 s = sub_from r t skip p2 s.
Proof.
  intros Hp.
  assert (Hm : forall b x, match_at r b p1 x = match_at r b p2 x).
  { intros b x. unfold match_at. apply rmatch_bol; [|exact Hp]. reflexivity. }
  destruct s as [|c s]; cbn [sub_from].
  - rewrite Hm. reflexivity.
  - destruct skip; [|reflexivity]. rewrite !Hm. reflexivity.
Qed.

Lemma rep_greedy_none p k : forall s prev,
  (forall pv a b, s = a ++ b -> Forall (fun c => p c = true) a ->
                  k pv b = None) ->
  rep_greedy p k prev s = None.
Proof.
  induction s as [|c s IH]; intros prev Hno.
  - cbn. apply (Hno prev [] []); [reflexivity|constructor].
  - assert (H0 : k prev (c :: s) = None)
      by (apply (Hno prev [] (c :: s)); [reflexivity|constructor]).
    cbn [rep_greedy]. rewrite H0. destruct (p c) eqn:Hc; [|reflexivity].
    rewrite IH; [reflexivity|].
    intros pv a b -> Ha. apply (Hno pv (c :: a) b); [reflexivity|].
    constructor; assumption.
Qed.

(** Dropping whitespace from the front of a text whose last character is
    not whitespace leaves some of the text. *)
Lemma split_before_last b tail : forall a rest,
  b <> [] -> hd_space (rev b) = false ->
  b ++ tail = a ++ rest -> Forall (fun c => isspace c = true) a ->
  exists b2, b2 <> [] /\ b = a ++ b2 /\ rest = b2 ++ tail.
Proof.
  induction b as [|c b IH]; intros a rest Hne Hlast Heq Ha; [contradiction|].
  destruct a as [|d a].
  - exists (c :: b). repeat split; [discriminate|]. symmetry. exact Heq.
  - cbn [app] in Heq. injection Heq as <- Heq.
    inversion Ha as [|? ? Hd Ha']; subst.
    destruct b as [|c' b].
    + cbn [rev app hd_space] in Hlast. congruence.
    + destruct (IH a rest ltac:(discriminate)) as (b2 & Hb2 & Hb & Hr).
      * cbn [rev] in Hlast |- *.
        destruct (rev b ++ [c']) as [|x l] eqn:E.
        -- destruct (rev b); discriminate.
        -- cbn [app hd_space] in Hlast |- *. exact Hlast.
      * exact Heq.
      * exact Ha'.
      * exists b2. repeat split; [exact Hb2|rewrite Hb; reflexivity|exact Hr].
Qed.

Lemma isspace_not_eq c : isspace c = true -> ch "=" c = false.
Proof.
  intros H. apply ch_false. intros ->. discriminate.
Qed.

Lemma header_tail_match (S0 : list ascii) pv cs ws eqs rest :
  Forall (fun c => isspace c = true) ws ->
  eqs <> [] -> Forall (fun c => c = "=") eqs ->
  at_eol rest = true ->
  rmatch (seq [Star true isspace; Plus true (ch "="); Eol])
         (accept false S0) pv (ws ++ eqs ++ rest) cs
  = Some (rest, cs).
Proof.
  intros Hws Hne Heqs Hrest. rewrite rmatch_seq_cons. cbn [rmatch].
  destruct eqs as [|e eqs]; [contradiction|].
  inversion Heqs as [|? ? He Heqs']; subst.
  apply rep_greedy_run.
  - exact Hws.
  - reflexivity.
  - intros pv'. unfold Plus. rewrite rmatch_seq_cons.
    cbn [rmatch app]. rewrite ch_refl. apply rep_greedy_run.
    + eapply Forall_impl; [|exact Heqs']. intros c ->. apply ch_refl.
    + destruct rest as [|c rest]; [exact I|].
      cbn [at_eol] in Hrest. apply Ascii.eqb_eq in Hrest. subst c.
      reflexivity.
    + intros pv''. cbn [seq rmatch]. rewrite Hrest. reflexivity.
Qed.

Lemma header_tail_no_match k pv cs b tail :
  b <> [] -> hd_space (rev b) = false ->
  Forall (fun c => c <> "=") b ->
  rmatch (seq [Star true isspace; Plus true (ch "="); Eol]) k pv (b ++ tail) cs
  = None.
Proof.
  intros Hne Hlast Hb. rewrite rmatch_seq_cons. cbn [rmatch].
  apply rep_greedy_none. intros pv' a rest Heq Ha.
  destruct (split_before_last b tail a rest Hne Hlast Heq Ha)
    as (b2 & Hb2 & Hsplit & ->).
  destruct b2 as [|x b2]; [contradiction|].
  unfold Plus. rewrite rmatch_seq_cons. cbn [rmatch app].
  assert (Hx : x <> "=").
  { rewrite Hsplit in Hb. apply Forall_app in Hb. destruct Hb as [_ Hb].
    inversion Hb; assumption. }
  apply ch_false in Hx. rewrite Hx. reflexivity.
Qed.

Lemma suffix_last (b : list ascii) : forall a,
  b <> [] -> hd_space (rev (a ++ b)) = false -> hd_space (rev b) = false.
Proof.
  intros a Hne H. rewrite rev_app_distr in H.
  destruct (rev b) as [|x l] eqn:E.
  - apply (f_equal (@rev _)) in E. rewrite rev_involutive in E.
    contradiction.
  - exact H.
Qed.

Lemma header_match prev eqs1 ws1 inner ws2 eqs2 rest :
  at_bol prev = true ->
  eqs1 <> [] -> Forall (fun c => c = "=") eqs1 ->
  Forall (fun c => isspace c = true) ws1 ->
  inner <> [] -> Forall (fun c => c <> newline /\ c <> "=") inner ->
  hd_space inner = false -> hd_space (rev inner) = false ->
  Forall (fun c => isspace c = true) ws2 ->
  eqs2 <> [] -> Forall (fun c => c = "=") eqs2 ->
  at_eol rest = true ->
  match_at header_re false prev
    (eqs1 ++ ws1 ++ inner ++ ws2 ++ eqs2 ++ rest)
  = Some (rest, [(1, inner)]).
Proof.
  intros Hbol Hne1 He1 Hw1 Hin Hinner Hhd Hlast Hw2 Hne2 He2 Hrest.
  unfold match_at, header_re.
  rewrite rmatch_seq_cons. cbn [rmatch]. rewrite Hbol.
  destruct eqs1 as [|e eqs1]; [contradiction|].
  inversion He1 as [|? ? He He1']; subst.
  destruct inner as [|x inner]; [contradiction|].
  inversion Hinner as [|? ? [Hxn Hxe] Hinner']; subst.
  cbn [hd_space] in Hhd.
  unfold Plus at 1. rewrite !rmatch_seq_cons. cbn [rmatch app].
  rewrite ch_refl.
  (* the opening run *)
  apply rep_greedy_run.
  { eapply Forall_impl; [|exact He1']. intros c ->. apply ch_refl. }
  { destruct ws1 as [|w ws1]; cbn [app].
    - apply ch_false, Hxe.
    - inversion Hw1; subst. apply isspace_not_eq. assumption. }
  intros pv1. rewrite rmatch_seq_cons. cbn [rmatch].
  (* the whitespace after it *)
  apply rep_greedy_run; [exact Hw1|exact Hhd|].
  intros pv2. rewrite rmatch_seq_cons. cbn [rmatch]. unfold Plus at 1.
  cbn [rmatch]. unfold dot at 1.
  apply not_ch_true in Hxn. rewrite Hxn.
  (* the heading text, taken lazily *)
  apply rep_lazy_run.
  - eapply Forall_impl; [|exact Hinner']. intros c [Hc _].
    apply not_ch_true, Hc.
  - intros pv3 a b Hs Hb.
    apply header_tail_no_match.
    + exact Hb.
    + apply (suffix_last b (x :: a) Hb). cbn [app]. rewrite <- Hs. exact Hlast.
    + rewrite Hs in Hinner'. apply Forall_app in Hinner'.
      destruct Hinner' as [_ H]. eapply Forall_impl; [|exact H].
      intros c [_ Hc]. exact Hc.
  - intros pv3. rewrite header_tail_match by assumption.
    change (x :: inner ++ ws2 ++ eqs2 ++ rest)
      with ((x :: inner) ++ ws2 ++ eqs2 ++ rest).
    rewrite firstn_length_diff. reflexivity.
Qed.

Local Open Scope string_scope.

Lemma header_no_match_newline prev s :
  match_at header_re false prev (newline :: s) = None.
Proof.
  unfold match_at, header_re. rewrite rmatch_seq_cons. cbn [rmatch].
  destruct (at_bol prev); reflexivity.
Qed.

(** X11: a first line made of a run of "=", optional whitespace, a heading
    text, optional whitespace and a run of "=" is replaced by the heading
    text alone, and the lines after it are processed on their own. The
    heading text has no "=" and no newline and neither begins nor ends with
    whitespace. *)
Theorem heading_line_unwrapped :
  forall eqs1 ws1 inner ws2 eqs2 rest : list ascii,
    eqs1 <> [] -> Forall (fun c => c = "="%char) eqs1 ->
    Forall (fun c => isspace c = true) ws1 ->
    inner <> [] -> Forall (fun c => c <> newline /\ c <> "="%char) inner ->
    hd_space inner = false -> hd_space (rev inner) = false ->
    Forall (fun c => isspace c = true) ws2 ->
    eqs2 <> [] -> Forall (fun c => c = "="%char) eqs2 ->
    unwrap_headers (eqs1 ++ ws1 ++ inner ++ ws2 ++ eqs2) = inner
    /\ unwrap_headers (eqs1 ++ ws1 ++ inner ++ ws2 ++ eqs2 ++ newline :: rest)
       = (inner ++ newline :: unwrap_headers rest)%list.
Proof.
  intros eqs1 ws1 inner ws2 eqs2 rest Hne1 He1 Hw1 Hin Hinner Hhd Hlast
         Hw2 Hne2 He2.
  assert (Hm : forall tail, at_eol tail = true ->
             unwrap_headers (eqs1 ++ ws1 ++ inner ++ ws2 ++ eqs2 ++ tail)
             = (inner ++ sub_from header_re [RGrp 1] 0
                           (prev_after (eqs1 ++ ws1 ++ inner ++ ws2 ++ eqs2) None)
                           tail)%list).
  { intros tail Htail. unfold unwrap_headers, sub.
    replace (eqs1 ++ ws1 ++ inner ++ ws2 ++ eqs2 ++ tail)%list
      with ((eqs1 ++ ws1 ++ inner ++ ws2 ++ eqs2) ++ tail)%list
      by (rewrite <- !app_assoc; reflexivity).
    rewrite (sub_from_match header_re [RGrp 1] None _ tail [(1%nat, inner)]).
    - cbn [expand group Nat.eqb]. rewrite app_nil_r. reflexivity.
    - destruct eqs1; [contradiction|discriminate].
    - refine (eq_trans _ (header_match None eqs1 ws1 inner ws2 eqs2 tail
                            eq_refl Hne1 He1 Hw1 Hin Hinner Hhd Hlast
                            Hw2 Hne2 He2 Htail)).
      f_equal. rewrite <- !app_assoc. reflexivity. }
  split.
  - pose proof (Hm [] eq_refl) as H. rewrite !app_nil_r in H.
    rewrite H. cbn [sub_from].
    replace (match_at header_re false
               (prev_after (eqs1 ++ ws1 ++ inner ++ ws2 ++ eqs2) None) [])
      with (@None result).
    + apply app_nil_r.
    + unfold match_at, header_re. rewrite rmatch_seq_cons. cbn [rmatch].
      destruct (at_bol _); reflexivity.
  - rewrite (Hm (newline :: rest) eq_refl).
    rewrite sub_from_step by (cbn; lia).
    rewrite header_no_match_newline. f_equal. f_equal.
    apply sub_from_bol. reflexivity.
Qed.

Lemma heading_line_unwrapped_witness :
  unwrap_headers (chars "==" ++ chars " " ++ chars "Early life" ++ chars " "
                    ++ chars "==")
  = chars "Early life"
  /\ unwrap_headers (chars "==" ++ chars " " ++ chars "Early life" ++ chars " "
                       ++ chars "==" ++ newline :: chars "Born in 1900.")
     = (chars "Early life" ++ newline :: unwrap_headers (chars "Born in 1900."))%list.
Proof.
  apply (heading_line_unwrapped (chars "==") (chars " ") (chars "Early life")
           (chars " ") (chars "==") (chars "Born in 1900.")).
  - discriminate.
  - repeat constructor.
  - repeat constructor.
  - discriminate.
  - repeat constructor; discriminate.
  - reflexivity.
  - reflexivity.
  - repeat constructor.
  - discriminate.
  - repeat constructor.
Defined.

Local Open Scope string_scope.
Local Open Scope Z_scope.

(** ** Tags and namespaces *)

Lemma after_last_plain sep : forall name cur,
  has_char sep name = false -> after_last sep cur name = cur ++ name.
Proof.
  induction name as [|c name IH]; intros cur H; cbn [after_last].
  - clear H. induction cur as [|a cur IHc]; cbn; [reflexivity|].
    f_equal. exact IHc.
  - cbn [has_char] in H. apply orb_false_iff in H. destruct H as [Hc Hn].
    rewrite Hc, (IH _ Hn). clear.
    induction cur as [|a cur IHc]; cbn; [reflexivity|]. f_equal. exact IHc.
Qed.

Lemma after_last_sep sep name : forall ns cur,
  has_char sep name = false ->
  after_last sep cur (ns ++ String sep name) = name.
Proof.
  induction ns as [|c ns IH]; intros cur H; cbn [append after_last].
  - rewrite Ascii.eqb_refl. apply (after_last_plain sep name "" H).
  - destruct (Ascii.eqb c sep); apply IH, H.
Qed.

(** X12: [elem.tag.split('}')[-1]] removes an XML namespace: what follows the
    last closing brace is the tag, a tag without brace is kept, and an
    iteration of the loop does the same for a tag with and without its
    namespace. *)
Theorem local_name_drops_namespace :
  forall (ns name : string) (max_articles : option Z) (kind : event_kind)
         (x : option string) (st : state),
    has_char "}" name = false ->
    local_name (ns ++ "}" ++ name) = name
    /\ local_name name = name
    /\ step max_articles (kind, {| tag := ns ++ "}" ++ name; text := x |}) st
       = step max_articles (kind, {| tag := name; text := x |}) st.
Proof.
  intros ns name max_articles kind x st H.
  assert (H1 : local_name (ns ++ "}" ++ name) = name)
    by (apply after_last_sep, H).
  assert (H2 : local_name name = name)
    by (apply (after_last_plain "}" name "" H)).
  repeat split; [exact H1|exact H2|].
  unfold step. cbn [tag text]. rewrite H1, H2. reflexivity.
Qed.

Lemma local_name_drops_namespace_witness :
  local_name ("{http://www.mediawiki.org/xml/export-0.10/" ++ "}" ++ "page")
  = "page"
  /\ local_name "page" = "page"
  /\ step (Some 5)
       (End, {| tag := "{http://www.mediawiki.org/xml/export-0.10/"
                       ++ "}" ++ "page"; text := None |})
       (at_page_end (Some "Title") (Some (replicate 120 "a")))
     = step (Some 5) (End, {| tag := "page"; text := None |})
         (at_page_end (Some "Title") (Some (replicate 120 "a"))).
Proof.
  apply (local_name_drops_namespace
           "{http://www.mediawiki.org/xml/export-0.10/" "page" (Some 5) End None
           (at_page_end (Some "Title") (Some (replicate 120 "a")))).
  reflexivity.
Defined.

(** ** Pages without a title or a text *)

Lemma step_start_page_resets max_articles ev st :
  is_start_page ev = true ->
  current_title (fst (step max_articles ev st)) = None
  /\ current_text (fst (step max_articles ev st)) = None.
Proof.
  unfold is_start_page, is_page, step. destruct ev as [kind elem]; cbn [fst snd].
  destruct kind; [|discriminate]. intros ->. cbn. tauto.
Qed.

Lemma step_keeps_text max_articles ev st :
  is_page ev = false -> is_end_text ev = false ->
  current_text (fst (step max_articles ev st)) = current_text st.
Proof.
  unfold is_page, is_end_text, step. destruct ev as [kind elem]; cbn [fst snd].
  intros Hp Ht. rewrite Hp. destruct kind; [reflexivity|].
  rewrite Ht. cbn [andb].
  destruct (String.eqb _ "title" && in_page st); reflexivity.
Qed.

Lemma loop_keeps_text max_articles evs : forall st,
  Forall (fun ev => is_page ev = false) evs ->
  Forall (fun ev => is_end_text ev = false) evs ->
  current_text (loop max_articles evs st) = current_text st.
Proof.
  induction evs as [|ev evs IH]; intros st Hp Ht; cbn [loop].
  - reflexivity.
  - inversion Hp as [|? ? Hp1 Hp2]; inversion Ht as [|? ? Ht1 Ht2]; subst.
    pose proof (step_keeps_text max_articles ev st Hp1 Ht1) as Hk.
    pose proof (step_inside max_articles ev st Hp1) as Hi.
    destruct (step max_articles ev st) as [st1 stop]; cbn [fst] in Hk.
    destruct Hi as (_ & _ & -> & _). rewrite (IH st1 Hp2 Ht2). exact Hk.
Qed.

Lemma step_counters_unchanged max_articles ev st :
  is_page ev = false ->
  article_count (fst (step max_articles ev st)) = article_count st
  /\ text_size (fst (step max_articles ev st)) = text_size st
  /\ console (fst (step max_articles ev st)) = console st.
Proof.
  intros Hp.
  assert (He : is_end_page ev = false).
  { unfold is_end_page. rewrite Hp. destruct (fst ev); reflexivity. }
  pose proof (step_not_end_page max_articles ev st He) as H.
  destruct (step max_articles ev st) as [st1 stop]; cbn [fst]. tauto.
Qed.

(** X13: a page in which no title ends, or in which no text ends, writes
    nothing, whatever came before it: the start of the page clears both
    buffers, so a title or a text of an earlier page is never carried
    over. *)
Theorem page_without_title_or_text_not_written :
  forall (max_articles : option Z) (st : state)
         (page_start page_end : event) (body : list event),
    is_start_page page_start = true ->
    is_end_page page_end = true ->
    Forall (fun ev => is_page ev = false) body ->
    Forall (fun ev => is_end_title ev = false) body
    \/ Forall (fun ev => is_end_text ev = false) body ->
    let st' := loop max_articles (page_start :: body ++ [page_end]) st in
    out st' = out st
    /\ article_count st' = article_count st
    /\ text_size st' = text_size st
    /\ in_page st' = false.
Proof.
  intros max_articles st page_start page_end body Hps Hpe Hb Hno st'.
  subst st'. cbn [loop].
  pose proof (step_start_page max_articles page_start st Hps) as H0.
  pose proof (step_start_page_resets max_articles page_start st Hps) as H0'.
  assert (Hc0 : is_end_page page_start = false).
  { unfold is_start_page in Hps. unfold is_end_page.
    destruct (fst page_start); [reflexivity|discriminate]. }
  pose proof (step_not_end_page max_articles page_start st Hc0) as H0''.
  destruct (step max_articles page_start st) as [s0 stop0]; cbn [fst] in *.
  destruct H0 as (Hin0 & Hout0 & ->). destruct H0' as [Ht0 Hx0].
  destruct H0'' as (_ & _ & Ha0 & Hs0 & _).
  rewrite (loop_app_inside max_articles body [page_end] s0 Hb).
  destruct (loop_inside max_articles body s0 Hb) as (Hin1 & Hout1 & Ht1).
  assert (Hcnt : article_count (loop max_articles body s0) = article_count s0
                 /\ text_size (loop max_articles body s0) = text_size s0).
  { clear - Hb. revert s0. induction body as [|ev body IH]; intros s0;
      cbn [loop]; [tauto|].
    inversion Hb as [|? ? Hp1 Hp2]; subst.
    pose proof (step_counters_unchanged max_articles ev s0 Hp1) as Hk.
    pose proof (step_inside max_articles ev s0 Hp1) as Hi.
    destruct (step max_articles ev s0) as [s1 stop]; cbn [fst] in Hk.
    destruct Hi as (_ & _ & -> & _).
    destruct (IH Hp2 s1) as [I1 I2]. rewrite I1, I2. tauto. }
  set (s1 := loop max_articles body s0) in *.
  assert (Hacc : accepted s1 = false).
  { unfold accepted. destruct Hno as [Hno|Hno].
    - rewrite (Ht1 Hno), Ht0. reflexivity.
    - subst s1. rewrite (loop_keeps_text max_articles body s0 Hb Hno), Hx0.
      destruct (current_title (loop max_articles body s0)); reflexivity. }
  cbn [loop]. rewrite (step_end_page _ _ _ Hpe).
  pose proof (end_page_rejected max_articles s1 Hacc) as H2.
  destruct (end_page max_articles s1) as [s2 stop2].
  destruct H2 as (Ho2 & _ & Ha2 & Hs2 & Hin2 & ->).
  destruct Hcnt as [Hc1 Hc2]. repeat split; congruence.
Qed.

Lemma page_without_title_or_text_not_written_witness :
  let st := {| out := [("Earlier", replicate 101 "a")]; console := [];
               article_count := 1; text_size := 101;
               current_title := Some "Earlier";
               current_text := Some (replicate 101 "a");
               in_page := false |} in
  let st' := loop None (start_ev "page"
                          :: [start_ev "text";
                              end_ev "text" (Some (replicate 200 "b"))]
                          ++ [end_ev "page" None]) st in
  out st' = out st
  /\ article_count st' = article_count st
  /\ text_size st' = text_size st
  /\ in_page st' = false.
Proof.
  apply (page_without_title_or_text_not_written None
           {| out := [("Earlier", replicate 101 "a")]; console := [];
              article_count := 1; text_size := 101;
              current_title := Some "Earlier";
              current_text := Some (replicate 101 "a");
              in_page := false |}
           (start_ev "page") (end_ev "page" None)
           [start_ev "text"; end_ev "text" (Some (replicate 200 "b"))]).
  - reflexivity.
  - reflexivity.
  - repeat constructor.
  - left. repeat constructor.
Defined.

(** ** Records, progress lines and the cap *)

Lemma end_page_console max_articles st :
  accepted st = true ->
  console (fst (end_page max_articles st))
  = if (article_count st + 1) mod 100 =? 0
    then (console st
          ++ [Progress (article_count st + 1)
                       (text_size (fst (end_page max_articles st)))])%list
    else console st.
Proof.
  unfold accepted, end_page, clean_len.
  destruct (current_title st) as [title|]; [|discriminate].
  destruct (current_text st) as [body|]; [|discriminate].
  destruct (nonempty title && nonempty body); [|discriminate].
  destruct (negb (startswith_any title special_prefixes)); [|discriminate].
  cbn [andb]. intros ->.
  destruct (cap_reached max_articles (article_count st + 1));
    destruct ((article_count st + 1) mod 100 =? 0); reflexivity.
Qed.

Lemma progress_line_grows records rec r :
  progress_line_ok records r -> progress_line_ok (records ++ [rec]) r.
Proof.
  destruct r as [n size|n size]; cbn [progress_line_ok]; [|tauto].
  intros (Hpos & Hmod & Hle & Hsize). repeat split; try assumption.
  - rewrite length_app. cbn [length]. lia.
  - rewrite firstn_app.
    replace (Z.to_nat n - length records)%nat with 0%nat by lia.
    cbn [firstn]. rewrite app_nil_r. exact Hsize.
Qed.

Lemma step_progress_inv max_articles ev st :
  progress_inv st -> progress_inv (fst (step max_articles ev st)).
Proof.
  intros (Hok & Hlen & Hmap & Hall).
  pose proof (step_counters_ok max_articles ev st Hok) as Hok'.
  destruct (step_writes max_articles ev st) as (Ho & Ha & _).
  destruct (writes ev st) eqn:Hw.
  - unfold writes in Hw. apply andb_prop in Hw. destruct Hw as [Hev Hacc].
    pose proof (end_page_console max_articles st Hacc) as Hc.
    rewrite <- (step_end_page max_articles ev st Hev) in Hc.
    set (st' := fst (step max_articles ev st)) in *.
    destruct Hok as [Hcnt _]. destruct Hok' as [Hcnt' Hsz'].
    assert (Hnn : 0 <= article_count st) by lia.
    unfold progress_inv. split; [split; assumption|].
    rewrite Ha, Hc, Ho.
    destruct ((article_count st + 1) mod 100 =? 0) eqn:Hm.
    + apply Z.eqb_eq in Hm.
      assert (Hdiv : (article_count st + 1) / 100 = article_count st / 100 + 1).
      { Z.div_mod_to_equations. lia. }
      assert (Hval : article_count st + 1
                     = 100 * Z.of_nat (1 + length (console st))).
      { Z.div_mod_to_equations. lia. }
      rewrite length_app, map_app. cbn [length map report_articles].
      replace (length (console st) + 1)%nat with (S (length (console st))) by lia.
      rewrite seq_S, map_app, <- Hmap. cbn [map].
      repeat split.
      * lia.
      * rewrite <- Hval. reflexivity.
      * apply Forall_app. split.
        -- eapply Forall_impl; [|exact Hall].
           intros r. apply progress_line_grows.
        -- constructor; [|constructor]. cbn [progress_line_ok].
           rewrite Ho in Hcnt', Hsz'. rewrite Ha in Hcnt'.
           repeat split; try lia.
           rewrite Hsz', firstn_all2; [reflexivity|]. lia.
    + apply Z.eqb_neq in Hm.
      assert (Hdiv : (article_count st + 1) / 100 = article_count st / 100).
      { Z.div_mod_to_equations. lia. }
      repeat split.
      * lia.
      * exact Hmap.
      * eapply Forall_impl; [|exact Hall]. intros r. apply progress_line_grows.
  - assert (Hc : console (fst (step max_articles ev st)) = console st).
    { unfold writes in Hw. destruct (is_end_page ev) eqn:Hev.
      - cbn [andb] in Hw. rewrite (step_end_page _ _ _ Hev).
        pose proof (end_page_rejected max_articles st Hw) as H.
        destruct (end_page max_articles st); cbn [fst]. tauto.
      - pose proof (step_not_end_page max_articles ev st Hev) as H.
        destruct (step max_articles ev st); cbn [fst]. tauto. }
    unfold progress_inv. rewrite Hc, Ha, Ho. tauto.
Qed.

Lemma loop_progress_inv max_articles evs : forall st,
  progress_inv st -> progress_inv (loop max_articles evs st).
Proof.
  induction evs as [|ev evs IH]; intros st Hst; cbn [loop].
  - exact Hst.
  - pose proof (step_progress_inv max_articles ev st Hst) as H.
    destruct (step max_articles ev st) as [st' stop]; cbn [fst] in H.
    destruct stop; [exact H|apply IH, H].
Qed.

(** X14: the progress lines. After any number of iterations there is one
    progress line for every full hundred of records written; the lines
    report 100, 200, ... articles in this order, each with the total cleaned
    size of that many records. *)
Theorem progress_every_hundred :
  forall (max_articles : option Z) (events : list event),
    let st := loop max_articles events init in
    Z.of_nat (length (console st)) = article_count st / 100
    /\ map report_articles (console st)
       = map (fun k => 100 * Z.of_nat k) (List.seq 1 (length (console st)))
    /\ Forall (progress_line_ok (out st)) (console st).
Proof.
  intros max_articles events st.
  assert (Hinit : progress_inv init).
  { unfold progress_inv, counters_ok. cbn. repeat split; constructor. }
  destruct (loop_progress_inv max_articles events init Hinit) as (_ & H).
  exact H.
Qed.

(** X15: records are only ever appended. What has been written after a
    prefix of the events is a prefix of what is written after all of them,
    so a run cut short (by a parse error further on, say) leaves the
    records of the complete pages before it. *)
Theorem output_only_grows :
  forall (max_articles : option Z) (events1 events2 : list event) (st : state),
    exists more,
      out (loop max_articles (events1 ++ events2) st)
      = (out (loop max_articles events1 st) ++ more)%list.
Proof.
  intros max_articles events1 events2.
  induction events1 as [|ev evs IH]; intros st; cbn [app loop].
  - apply loop_out_extends.
  - destruct (step max_articles ev st) as [st' stop].
    destruct stop.
    + exists []. rewrite app_nil_r. reflexivity.
    + apply IH.
Qed.

(** ** Every record passed the filters *)

Lemma end_page_buffers max_articles st :
  current_title (fst (end_page max_articles st)) = current_title st
  /\ current_text (fst (end_page max_articles st)) = current_text st.
Proof.
  unfold end_page.
  destruct (current_title st) as [title|] eqn:Et; [|cbn; tauto].
  destruct (current_text st) as [body|] eqn:Eb; [|cbn; tauto].
  destruct (nonempty title && nonempty body); [|cbn; tauto].
  destruct (negb (startswith_any title special_prefixes)); [|cbn; tauto].
  destruct (Z.of_nat (String.length (clean_text body)) >? 100); [|cbn; tauto].
  destruct (cap_reached max_articles (article_count st + 1)); cbn; tauto.
Qed.

Lemma title_texts_In events ev t :
  In ev events -> is_end_title ev = true -> text (snd ev) = Some t ->
  In t (title_texts events).
Proof.
  intros Hin He Ht. unfold title_texts. apply in_flat_map.
  exists ev. split; [exact Hin|]. rewrite He, Ht. left. reflexivity.
Qed.

Lemma body_texts_In events ev b :
  In ev events -> is_end_text ev = true -> text (snd ev) = Some b ->
  In b (body_texts events).
Proof.
  intros Hin He Hb. unfold body_texts. apply in_flat_map.
  exists ev. split; [exact Hin|]. rewrite He, Hb. left. reflexivity.
Qed.

Lemma step_buffers_ok events max_articles ev st :
  In ev events -> buffers_ok events st ->
  buffers_ok events (fst (step max_articles ev st)).
Proof.
  intros Hin [Ht Hb].
  pose proof (title_texts_In events ev) as HT.
  pose proof (body_texts_In events ev) as HB.
  unfold is_end_title, is_end_text in HT, HB.
  destruct ev as [kind elem]. cbn [fst snd] in HT, HB. unfold step.
  destruct kind.
  - destruct (String.eqb _ "page"); cbn [fst]; [|split; assumption].
    split; cbn; discriminate.
  - destruct (String.eqb (local_name (tag elem)) "title") eqn:E1;
      [destruct (in_page st); cbn [andb fst]|cbn [andb]].
    + split; cbn [current_title current_text]; [|exact Hb].
      intros t Hx. apply (HT t Hin eq_refl Hx).
    + destruct (String.eqb (local_name (tag elem)) "text" && false) eqn:E2.
      { rewrite andb_false_r in E2. discriminate. }
      destruct (String.eqb (local_name (tag elem)) "page").
      * unfold buffers_ok.
        destruct (end_page_buffers max_articles st) as [-> ->].
        split; assumption.
      * split; assumption.
    + destruct (String.eqb (local_name (tag elem)) "text") eqn:E2;
        [destruct (in_page st); cbn [andb fst]|cbn [andb]].
      * split; cbn [current_title current_text]; [exact Ht|].
        intros b Hx. apply (HB b Hin eq_refl Hx).
      * destruct (String.eqb (local_name (tag elem)) "page").
        -- unfold buffers_ok.
        destruct (end_page_buffers max_articles st) as [-> ->].
           split; assumption.
        -- split; assumption.
      * destruct (String.eqb (local_name (tag elem)) "page").
        -- unfold buffers_ok.
        destruct (end_page_buffers max_articles st) as [-> ->].
           split; assumption.
        -- split; assumption.
Qed.

Lemma accepted_record_ok events st :
  buffers_ok events st -> accepted st = true ->
  record_ok events (record_of st).
Proof.
  intros [Ht Hb]. unfold accepted, record_of, record_ok, clean_len.
  destruct (current_title st) as [title|]; [|discriminate].
  destruct (current_text st) as [body|]; [|discriminate].
  intros H. apply andb_prop in H. destruct H as [H Hlen].
  apply andb_prop in H. destruct H as [H Hns].
  apply andb_prop in H. destruct H as [Hn1 Hn2]. cbn [fst snd].
  repeat split.
  - intros ->. discriminate.
  - apply negb_true_iff, Hns.
  - apply Z.gtb_lt in Hlen. lia.
  - apply Ht. reflexivity.
  - exists body. repeat split.
    + apply Hb. reflexivity.
    + intros ->. discriminate.
Qed.

Lemma loop_records_ok events max_articles evs : forall st,
  (forall ev, In ev evs -> In ev events) ->
  buffers_ok events st -> Forall (record_ok events) (out st) ->
  Forall (record_ok events) (out (loop max_articles evs st)).
Proof.
  induction evs as [|ev evs IH]; intros st Hsub Hbuf Hout; cbn [loop].
  - exact Hout.
  - pose proof (step_buffers_ok events max_articles ev st
                  (Hsub ev (or_introl eq_refl)) Hbuf) as Hbuf'.
    destruct (step_writes max_articles ev st) as (Ho & _ & _).
    assert (Hout' : Forall (record_ok events)
                      (out (fst (step max_articles ev st)))).
    { rewrite Ho. destruct (writes ev st) eqn:Hw; [|exact Hout].
      apply Forall_app. split; [exact Hout|].
      constructor; [|constructor].
      unfold writes in Hw. apply andb_prop in Hw.
      apply accepted_record_ok; [exact Hbuf|apply Hw]. }
    destruct (step max_articles ev st) as [st' stop]; cbn [fst] in *.
    destruct stop; [exact Hout'|].
    apply IH; [|exact Hbuf'|exact Hout'].
    intros e He. apply Hsub. right. exact He.
Qed.

Lemma run_records_ok max_articles events :
  Forall (record_ok events) (out (loop max_articles events init)).
Proof.
  apply loop_records_ok.
  - auto.
  - split; cbn; discriminate.
  - constructor.
Qed.

(** X16: every record in the output passed both filters and is made of
    texts of the input: its title is the text of an event that ends a
    title, is not empty and has none of the special prefixes; its second
    part is [clean_text] of the non-empty text of an event that ends a text
    element, and is longer than 100 characters. *)
Theorem written_records_passed_filters :
  forall (max_articles : option Z) (root : event) (events : list event),
    exists st,
      extract_articles (root :: events) max_articles = Some st
      /\ Forall (record_ok events) (out st).
Proof.
  intros max_articles root events. eexists. split; [reflexivity|].
  cbn [finish out]. apply run_records_ok.
Qed.

(** X17: an input in which no text element has more than 100 characters
    gives an empty output, because cleaning never lengthens a text. *)
Theorem short_texts_never_written :
  forall (max_articles : option Z) (root : event) (events : list event),
    Forall (fun body => (String.length body <= 100)%nat) (body_texts events) ->
    exists st,
      extract_articles (root :: events) max_articles = Some st
      /\ out st = [] /\ article_count st = 0 /\ text_size st = 0.
Proof.
  intros max_articles root events Hshort. eexists. split; [reflexivity|].
  cbn [finish out article_count text_size].
  pose proof (run_records_ok max_articles events) as Hok.
  assert (Hinit : counters_ok init) by (split; reflexivity).
  destruct (loop_counters_ok max_articles events init Hinit) as [Hc Hs].
  destruct (out (loop max_articles events init)) as [|rec l] eqn:E.
  - rewrite Hc, Hs. repeat split.
  - exfalso. inversion Hok as [|? ? Hrec _]; subst.
    destruct Hrec as (_ & _ & Hlen & _ & body & Hin & _ & Hclean).
    rewrite Forall_forall in Hshort. specialize (Hshort body Hin).
    pose proof (clean_text_length_le body). rewrite Hclean in Hlen. lia.
Qed.

Lemma short_texts_never_written_witness :
  exists st,
    extract_articles
      (start_ev "mediawiki"
         :: page_events "" "Stub" (replicate 100 "a")
         ++ page_events "" "Other" "[[Link|shown]] text") (Some 3)
    = Some st
    /\ out st = [] /\ article_count st = 0 /\ text_size st = 0.
Proof.
  apply (short_texts_never_written (Some 3) (start_ev "mediawiki")
           (page_events "" "Stub" (replicate 100 "a")
              ++ page_events "" "Other" "[[Link|shown]] text")).
  repeat constructor.
Defined.

(** A negative cap is reached by the first record. *)
Lemma loop_negative_cap (m : Z) evs : forall st,
  m < 0 -> 0 <= article_count st ->
  out (loop (Some m) evs st)
  = firstn (length (out st) + 1) (out (loop None evs st)).
Proof.
  induction evs as [|ev evs IH]; intros st Hm Hnn; cbn [loop].
  - rewrite firstn_all2; [reflexivity|lia].
  - destruct (step_writes (Some m) ev st) as (Ho1 & Ha1 & Hs1).
    destruct (step_writes None ev st) as (Ho2 & _ & Hs2).
    pose proof (step_no_stop (Some m) ev st) as Hsame.
    destruct (step (Some m) ev st) as [s1 stop1]; cbn [fst snd] in *.
    destruct stop1.
    + symmetry in Hs1. apply andb_prop in Hs1. destruct Hs1 as [Hw _].
      rewrite Hw in *.
      destruct (step None ev st) as [s2 stop2]; cbn [fst snd] in *.
      rewrite andb_false_r in Hs2. subst stop2.
      destruct (loop_out_extends None evs s2) as [l Hl].
      rewrite Hl, Ho2, Ho1.
      replace (length (out st) + 1)%nat
        with (length (out st ++ [record_of st]) + 0)%nat
        by (rewrite length_app; cbn [length]; lia).
      rewrite firstn_app_2. cbn [firstn]. rewrite app_nil_r. reflexivity.
    + rewrite <- (Hsame eq_refl).
      assert (Hw : writes ev st = false).
      { destruct (writes ev st); [|reflexivity].
        cbn [andb cap_reached] in Hs1. symmetry in Hs1.
        apply andb_false_iff in Hs1. destruct Hs1 as [Hz|Hz].
        - apply negb_false_iff, Z.eqb_eq in Hz. lia.
        - destruct (Z.geb_spec (article_count st + 1) m); [discriminate|lia]. }
      rewrite Hw in Ho1, Ha1.
      rewrite (IH s1 Hm) by lia. rewrite Ho1. reflexivity.
Qed.

(** X18: a negative [max_articles] is a cap of one: it is not zero, and the
    count is never below it, so the run stops after the first record it
    writes, which is the first eligible page of the input, if there is one.
    On the sample with five eligible pages every negative cap leaves
    exactly the record of the first page. *)
Theorem negative_cap_stops_after_first_record :
  forall (root : event) (events : list event) (m : Z),
    m < 0 ->
    (exists st,
       extract_articles (root :: events) (Some m) = Some st
       /\ out st = firstn 1 (eligible (root :: events))
       /\ (length (out st) <= 1)%nat)
    /\ (exists st,
          extract_articles five_pages (Some m) = Some st
          /\ map fst (eligible five_pages)
             = ["One"; "Two"; "Three"; "Four"; "Five"]
          /\ out st = [("One", replicate 101 "a")]
          /\ article_count st = 1).
Proof.
  intros root events m Hm.
  assert (Hgen : forall evs,
             out (loop (Some m) evs init) = firstn 1 (out (loop None evs init))).
  { intros evs. rewrite (loop_negative_cap m evs init Hm) by (cbn; lia).
    reflexivity. }
  split.
  - eexists. split; [reflexivity|].
    rewrite eligible_uncapped. cbn [extract_articles finish out].
    rewrite Hgen. split; [reflexivity|].
    rewrite length_firstn. lia.
  - assert (Hinit : counters_ok init) by (split; reflexivity).
    destruct (loop_counters_ok (Some m) (tl five_pages) init Hinit) as [Hc _].
    assert (Hout : out (loop (Some m) (tl five_pages) init)
                   = [("One", replicate 101 "a")]).
    { rewrite Hgen. vm_compute. reflexivity. }
    eexists. split; [reflexivity|].
    split; [vm_compute; reflexivity|].
    cbn [finish out article_count]. split; [exact Hout|].
    refine (eq_trans Hc _). rewrite Hout. reflexivity.
Qed.

Lemma negative_cap_stops_after_first_record_witness :
  (exists st,
     extract_articles five_pages (Some (-3)) = Some st
     /\ out st = firstn 1 (eligible five_pages)
     /\ (length (out st) <= 1)%nat)
  /\ (exists st,
        extract_articles five_pages (Some (-3)) = Some st
        /\ map fst (eligible five_pages)
           = ["One"; "Two"; "Three"; "Four"; "Five"]
        /\ out st = [("One", replicate 101 "a")]
        /\ article_count st = 1).
Proof.
  apply (negative_cap_stops_after_first_record
           (start_ev (export_ns ++ "mediawiki")) (tl five_pages) (-3)).
  reflexivity.
Defined.

(** ** The output file *)

Lemma string_length_append (a b : string) :
  String.length (a ++ b) = (String.length a + String.length b)%nat.
Proof.
  induction a as [|c a IH]; cbn; [reflexivity|]. rewrite IH. reflexivity.
Qed.

Lemma file_contents_length_records records :
  Z.of_nat (String.length
              (fold_right (fun rec acc => render rec ++ acc) "" records))
  = titles_sum records + sizes_sum records + 3 * Z.of_nat (length records).
Proof.
  induction records as [|rec l IH]; cbn [fold_right titles_sum sizes_sum length].
  - reflexivity.
  - fold (titles_sum l). fold (sizes_sum l).
    rewrite string_length_append, Nat2Z.inj_add, IH. unfold render.
    rewrite !string_length_append. cbn [String.length]. lia.
Qed.

(** X19: the size of the output file. Each record takes its title, its
    cleaned text and three newlines, so after any number of iterations the
    file has as many characters as all titles, plus [text_size], plus three
    times [article_count]. *)
Theorem output_file_size :
  forall (max_articles : option Z) (events : list event),
    let st := loop max_articles events init in
    Z.of_nat (String.length (file_contents st))
    = titles_sum (out st) + text_size st + 3 * article_count st.
Proof.
  intros max_articles events st.
  assert (Hinit : counters_ok init) by (split; reflexivity).
  destruct (loop_counters_ok max_articles events init Hinit) as [Hc Hs].
  fold st in Hc, Hs. unfold file_contents.
  rewrite file_contents_length_records, Hc, Hs. reflexivity.
Qed.

Local Open Scope string_scope.
Local Open Scope Z_scope.

(** ** Streams without the start of a page *)

Lemma step_outside max_articles ev st :
  is_start_page ev = false ->
  in_page st = false -> current_title st = None ->
  let (st', stop) := step max_articles ev st in
  in_page st' = false /\ current_title st' = None
  /\ out st' = out st /\ stop = false.
Proof.
  unfold is_start_page, is_page, step. destruct ev as [kind elem]; cbn [fst snd].
  intros Hs Hin Ht. destruct kind.
  - rewrite Hs. tauto.
  - rewrite Hin, !andb_false_r.
    destruct (String.eqb _ "page"); [|tauto].
    assert (Hacc : accepted st = false) by (unfold accepted; rewrite Ht; reflexivity).
    pose proof (end_page_rejected max_articles st Hacc) as H.
    destruct (end_page_buffers max_articles st) as [Hb _].
    destruct (end_page max_articles st) as [st' stop]; cbn [fst] in Hb.
    destruct H as (Ho & _ & _ & _ & Hi & Hstop). repeat split; congruence.
Qed.

(** X20: the start of a page is what opens the buffers. A stream in which,
    after the root event that [next(context)] takes away, no page starts
    writes nothing, whatever titles, texts and ends of pages it has; so a
    document whose root element is itself the page gives an empty
    output. *)
Theorem no_page_start_no_output :
  forall (max_articles : option Z) (root : event) (events : list event),
    Forall (fun ev => is_start_page ev = false) events ->
    exists st,
      extract_articles (root :: events) max_articles = Some st
      /\ out st = [] /\ article_count st = 0.
Proof.
  intros max_articles root events Hno. eexists. split; [reflexivity|].
  cbn [finish out article_count].
  assert (H : forall evs st,
             Forall (fun ev => is_start_page ev = false) evs ->
             in_page st = false -> current_title st = None ->
             out (loop max_articles evs st) = out st).
  { induction evs as [|ev evs IH]; intros st Hall Hin Ht; cbn [loop].
    - reflexivity.
    - inversion Hall as [|? ? H1 H2]; subst.
      pose proof (step_outside max_articles ev st H1 Hin Ht) as Hs.
      destruct (step max_articles ev st) as [st' stop].
      destruct Hs as (Hin' & Ht' & Ho' & ->).
      rewrite (IH st' H2 Hin' Ht'). exact Ho'. }
  assert (Hinit : counters_ok init) by (split; reflexivity).
  destruct (loop_counters_ok max_articles events init Hinit) as [Hc _].
  rewrite Hc, (H events init Hno eq_refl eq_refl). split; reflexivity.
Qed.

Lemma no_page_start_no_output_witness :
  exists st,
    extract_articles
      (start_ev "page"
         :: [start_ev "title"; end_ev "title" (Some "Alone");
             start_ev "text"; end_ev "text" (Some (replicate 300 "a"));
             end_ev "page" None]) None
    = Some st
    /\ out st = [] /\ article_count st = 0.
Proof.
  apply (no_page_start_no_output None (start_ev "page")
           [start_ev "title"; end_ev "title" (Some "Alone");
            start_ev "text"; end_ev "text" (Some (replicate 300 "a"));
            end_ev "page" None]).
  repeat constructor.
Defined.

(** ** The report of tests/analyze_learning.py *)

Lemma substring_0_length : forall (s : string) (n : nat),
  String.length (String.substring 0 n s) = Nat.min n (String.length s).
Proof.
  induction s as [|c s IH]; intros n; destruct n; cbn; try reflexivity.
  rewrite IH. reflexivity.
Qed.

Lemma substring_0_all : forall (s : string) (n : nat),
  (String.length s <= n)%nat -> String.substring 0 n s = s.
Proof.
  induction s as [|c s IH]; intros n H; destruct n; cbn in *;
    try reflexivity; try lia.
  f_equal. apply IH. lia.
Qed.

(** X21: the three training phases split the rows: every row is in exactly
    one of them, so their sizes add up to the number of rows, whatever the
    iteration counts are (also zero, negative or above 100). *)
Theorem phases_partition_rows :
  forall (results : list Analyze.result) (r : Analyze.result),
    In r results ->
    (length (Analyze.early results) + length (Analyze.mid results)
     + length (Analyze.late results) = length results)%nat
    /\ ((In r (Analyze.early results) /\ ~ In r (Analyze.mid results)
         /\ ~ In r (Analyze.late results))
        \/ (~ In r (Analyze.early results) /\ In r (Analyze.mid results)
            /\ ~ In r (Analyze.late results))
        \/ (~ In r (Analyze.early results) /\ ~ In r (Analyze.mid results)
            /\ In r (Analyze.late results))).
Proof.
  intros results r Hin. split.
  - clear r Hin. unfold Analyze.early, Analyze.mid, Analyze.late.
    induction results as [|r l IH]; cbn [filter length]; [reflexivity|].
    destruct (Z.leb_spec (Analyze.iterations r) 5);
      destruct (Z.leb_spec 6 (Analyze.iterations r));
      destruct (Z.leb_spec (Analyze.iterations r) 20);
      destruct (Z.gtb_spec (Analyze.iterations r) 20);
      cbn [andb length]; lia.
  - unfold Analyze.early, Analyze.mid, Analyze.late.
    rewrite !filter_In.
    destruct (Z.leb_spec (Analyze.iterations r) 5);
      destruct (Z.leb_spec 6 (Analyze.iterations r));
      destruct (Z.leb_spec (Analyze.iterations r) 20);
      destruct (Z.gtb_spec (Analyze.iterations r) 20);
      cbn [andb]; try lia.
    + left. repeat split; auto; intros [_ ?]; discriminate.
    + right. left. repeat split; auto; intros [_ ?]; discriminate.
    + right. right. repeat split; auto; intros [_ ?]; discriminate.
Qed.

Lemma phases_partition_rows_witness :
  let row (n : Z) : Analyze.result :=
    {| Analyze.iterations := n; Analyze.output := " world";
       Analyze.correct := true; Analyze.edges := 12; Analyze.nodes := 7;
       Analyze.hierarchies := 0 |} in
  let results := [row 0; row 5; row 6; row 20; row 21; row 500] in
  (length (Analyze.early results) + length (Analyze.mid results)
   + length (Analyze.late results) = length results)%nat
  /\ ((In (row 21) (Analyze.early results)
       /\ ~ In (row 21) (Analyze.mid results)
       /\ ~ In (row 21) (Analyze.late results))
      \/ (~ In (row 21) (Analyze.early results)
          /\ In (row 21) (Analyze.mid results)
          /\ ~ In (row 21) (Analyze.late results))
      \/ (~ In (row 21) (Analyze.early results)
          /\ ~ In (row 21) (Analyze.mid results)
          /\ In (row 21) (Analyze.late results))).
Proof.
  intros row results.
  apply (phases_partition_rows results (row 21)).
  cbn. tauto.
Defined.

Lemma substring_0_prefix : forall (s : string) (n : nat),
  String.prefix (String.substring 0 n s) s = true.
Proof.
  induction s as [|c s IH]; intros n; destruct n; cbn; try reflexivity.
  destruct (ascii_dec c c) as [_|Hc]; [apply IH|contradiction].
Qed.

(** X22: the output column of the learning curve is never wider than 20
    characters: the output is shown as it is, or, when it is longer than
    20 characters, cut to a prefix followed by three dots, 20 characters in
    all. *)
Theorem output_display_fits :
  forall r : Analyze.result,
    (String.length (Analyze.output_display r) <= 20)%nat
    /\ (Analyze.output_display r = Analyze.output r
        \/ ((20 < String.length (Analyze.output r))%nat
            /\ String.length (Analyze.output_display r) = 20%nat
            /\ exists p, Analyze.output_display r = p ++ "..."
                         /\ String.prefix p (Analyze.output r) = true)).
Proof.
  intros r. unfold Analyze.output_display.
  destruct (Nat.leb_spec (String.length (Analyze.output r)) 20) as [H|H].
  - rewrite (substring_0_all _ 20 H). split; [exact H|left; reflexivity].
  - rewrite string_length_append, substring_0_length. cbn [String.length].
    split; [lia|]. right. split; [exact H|]. split; [lia|].
    exists (String.substring 0 17 (Analyze.output r)).
    split; [reflexivity|apply substring_0_prefix].
Qed.
